(** * Inflation vs. market returns: the calculation pipeline

    A shallow embedding of [src/calculations.py] (class
    [FinancialCalculator]) and of [DataLoader.load_cpi] and
    [DataLoader.resample_to_monthly] from [src/data_loader.py], together
    with the pandas operations they call.

    Numbers.  Python floats are modelled as exact real numbers extended
    with the three IEEE special values (NaN and the two infinities).
    Rounding and the sign of zero are not modelled: every statement below
    is a statement about the arithmetic the formulas denote, with the
    IEEE rules for missing values, division by zero and infinities kept.

    Objects.  A DataFrame is a mutable object; the three operations that
    assign a column to the frame they are given are modelled on a store of
    frames, so that aliasing between the argument and the result is
    visible.  The operations that copy their arguments are modelled on
    values. *)

From Stdlib Require Import Reals Lra Lia List ZArith String Bool.
From stdpp Require Import gmap strings sorting.
Import ListNotations.
Local Open Scope R_scope.

(** ** Floating-point values *)

Inductive float : Type :=
| NaN
| PInf
| NInf
| Fin (x : R).

Definition isna (a : float) : bool :=
  match a with NaN => true | _ => false end.

Definition notna (a : float) : bool := negb (isna a).

Definition isinf (a : float) : bool :=
  match a with PInf | NInf => true | _ => false end.

Definition is_finite (a : float) : Prop :=
  match a with Fin _ => True | _ => False end.

Definition fopp (a : float) : float :=
  match a with
  | NaN => NaN
  | PInf => NInf
  | NInf => PInf
  | Fin x => Fin (- x)
  end.

Definition fadd (a b : float) : float :=
  match a, b with
  | NaN, _ | _, NaN => NaN
  | PInf, NInf | NInf, PInf => NaN
  | PInf, _ | _, PInf => PInf
  | NInf, _ | _, NInf => NInf
  | Fin x, Fin y => Fin (x + y)
  end.

Definition fsub (a b : float) : float := fadd a (fopp b).

(** The sign of a finite operand as it matters next to an infinity:
    [None] for zero. *)
Definition sign_of (x : R) : option bool :=
  if Req_dec_T x 0 then None
  else if Rlt_dec 0 x then Some true else Some false.

Definition signed_inf (positive : bool) : float :=
  if positive then PInf else NInf.

Definition fmul (a b : float) : float :=
  match a, b with
  | NaN, _ | _, NaN => NaN
  | Fin x, Fin y => Fin (x * y)
  | PInf, PInf | NInf, NInf => PInf
  | PInf, NInf | NInf, PInf => NInf
  | PInf, Fin x | Fin x, PInf =>
      match sign_of x with None => NaN | Some s => signed_inf s end
  | NInf, Fin x | Fin x, NInf =>
      match sign_of x with None => NaN | Some s => signed_inf (negb s) end
  end.

(** numpy's division: a finite non-zero value over zero is an infinity,
    zero over zero and infinity over infinity are NaN; nothing raises. *)
Definition fdiv (a b : float) : float :=
  match a, b with
  | NaN, _ | _, NaN => NaN
  | Fin x, Fin y =>
      if Req_dec_T y 0
      then match sign_of x with None => NaN | Some s => signed_inf s end
      else Fin (x / y)
  | Fin _, (PInf | NInf) => Fin 0
  | (PInf | NInf), (PInf | NInf) => NaN
  | PInf, Fin y => if Rlt_dec y 0 then NInf else PInf
  | NInf, Fin y => if Rlt_dec y 0 then PInf else NInf
  end.

(** [np.sqrt]. *)
Definition fsqrt (a : float) : float :=
  match a with
  | NaN | NInf => NaN
  | PInf => PInf
  | Fin x => if Rlt_dec x 0 then NaN else Fin (sqrt x)
  end.

(** [a ** 0.5]: as [np.sqrt] except at minus infinity. *)
Definition fpow_half (a : float) : float :=
  match a with
  | NInf => PInf
  | _ => fsqrt a
  end.

(** [a ** n] for a literal natural exponent. *)
Fixpoint fpow (a : float) (n : nat) : float :=
  match n with
  | O => Fin 1
  | S k => fmul a (fpow a k)
  end.

(** [a < b]: false as soon as an operand is NaN. *)
Definition fltb (a b : float) : bool :=
  match a, b with
  | NaN, _ | _, NaN => false
  | _, NInf => false
  | NInf, _ => true
  | PInf, _ => false
  | Fin _, PInf => true
  | Fin x, Fin y => if Rlt_dec x y then true else false
  end.

(** [a != b]: true as soon as an operand is NaN. *)
Definition fneb (a b : float) : bool :=
  match a, b with
  | NaN, _ | _, NaN => true
  | PInf, PInf | NInf, NInf => false
  | Fin x, Fin y => if Req_dec_T x y then false else true
  | _, _ => true
  end.

Definition of_nat (n : nat) : float := Fin (INR n).

(** ** Dates *)

(** A Timestamp at midnight; the inputs carry no time of day. *)
Record Timestamp : Type := mkTimestamp { year : Z; month : Z; day : Z }.

Global Instance Timestamp_eq_dec : EqDecision Timestamp.
Proof. solve_decision. Defined.

Definition is_leap_year (y : Z) : bool :=
  ((y mod 4 =? 0) && negb (y mod 100 =? 0) || (y mod 400 =? 0))%Z.

Definition days_in_month (y m : Z) : Z :=
  (if m =? 2 then (if is_leap_year y then 29 else 28)
   else if (m =? 4) || (m =? 6) || (m =? 9) || (m =? 11) then 30
   else 31)%Z.

(** [index.to_period('M').to_timestamp('M')]: the last day of the month
    the date lies in. *)
Definition month_end (t : Timestamp) : Timestamp :=
  {| year := year t; month := month t; day := days_in_month (year t) (month t) |}.

(** Chronological order. *)
Definition ts_ltb (a b : Timestamp) : bool :=
  ((year a <? year b)
   || ((year a =? year b)
       && ((month a <? month b)
           || ((month a =? month b) && (day a <? day b)))))%Z.

Definition ts_lt (a b : Timestamp) : Prop := ts_ltb a b = true.

(** ** Exceptions and results *)

Inductive exception : Type :=
| KeyError (key : string)
| ValueError (msg : string)
| TypeError (msg : string).

(** The name of the exception's class, [type(e).__name__]. *)
Definition exc_name (e : exception) : string :=
  match e with
  | KeyError _ => "KeyError"
  | ValueError _ => "ValueError"
  | TypeError _ => "TypeError"
  end.

Inductive result (A : Type) : Type :=
| Ok (a : A)
| Raise (e : exception).
Arguments Ok {A} a.
Arguments Raise {A} e.

Definition bind {A B} (r : result A) (k : A -> result B) : result B :=
  match r with
  | Ok a => k a
  | Raise e => Raise e
  end.

Notation "x <- r ;; k" := (bind r (fun x => k))
  (at level 100, r at next level, right associativity).

(** ** Series and frames *)

Inductive column : Type :=
| NumCol (v : list float)
| StrCol (v : list string).

Record Series : Type := mkSeries { s_index : list Timestamp; s_values : list float }.

Record DataFrame : Type :=
  mkFrame { index : list Timestamp; columns : gmap string column }.

(** [df[c]]: the column, or KeyError. *)
Definition getitem (df : DataFrame) (c : string) : result column :=
  match columns df !! c with
  | Some col => Ok col
  | None => Raise (KeyError c)
  end.

(** The values of a column an arithmetic operation [op] is applied to;
    a column of strings makes the operation raise TypeError. *)
Definition numeric (op : string) (col : column) : result (list float) :=
  match col with
  | NumCol v => Ok v
  | StrCol _ => Raise (TypeError op)
  end.

(** [Series.dropna]: the rows whose value is not NaN, labels kept. *)
Definition dropna (s : Series) : Series :=
  let rows := filter (fun r => notna (snd r) = true) (zip (s_index s) (s_values s)) in
  {| s_index := rows.*1; s_values := rows.*2 |}.

(** ** Returns *)

(** What [pct_change] does to missing values before it divides, when it
    is called without arguments as here: pandas 2 pads them forward,
    pandas 3 leaves them.  The two agree on a series without missing
    values. *)
Inductive fill_method : Type := pad | no_fill.

Fixpoint ffill_from (last : float) (v : list float) : list float :=
  match v with
  | [] => []
  | x :: t => if isna x then last :: ffill_from last t else x :: ffill_from x t
  end.

Definition ffill (v : list float) : list float := ffill_from NaN v.

(** [data / data.shift(1) - 1]. *)
Definition pct_change (fm : fill_method) (v : list float) : list float :=
  let data := match fm with pad => ffill v | no_fill => v end in
  match data with
  | [] => []
  | _ :: later => NaN :: zip_with (fun cur prev => fsub (fdiv cur prev) (Fin 1)) later data
  end.

(** [prices_df[price_col].pct_change()] followed by [dropna()]. *)
Definition calculate_returns (fm : fill_method) (prices_df : DataFrame)
    (price_col : string) : result Series :=
  col <- getitem prices_df price_col ;;
  v <- numeric "pct_change" col ;;
  let returns := {| s_index := index prices_df; s_values := pct_change fm v |} in
  Ok (dropna returns).

(** ** Inflation regimes *)

Definition classify_inflation_regime (inflation_rate : float) : string :=
  if fltb inflation_rate (Fin 0.01) then "Low (<1%)"
  else if fltb inflation_rate (Fin 0.03) then "Moderate (1-3%)"
  else "High (>3%)".

(** The ratio of each price to the one before it, minus one. *)
Definition simple_returns (p : list float) : list float :=
  zip_with (fun cur prev => fsub (fdiv cur prev) (Fin 1)) (tail p) p.

(** ** Frames as objects

    A frame is referred to by its location in the store.  Assigning a
    column changes the object at that location, for every holder of the
    reference. *)

Abbreviation store := (gmap nat DataFrame).

Definition M (A : Type) : Type := store -> result A * store.

Definition ret {A} (a : A) : M A := fun h => (Ok a, h).

Definition bindM {A B} (m : M A) (k : A -> M B) : M B :=
  fun h =>
    match m h with
    | (Ok a, h') => k a h'
    | (Raise e, h') => (Raise e, h')
    end.

Definition lift {A} (r : result A) : M A := fun h => (r, h).

Notation "'do' x <- m ; k" := (bindM m (fun x => k))
  (at level 10, x name, m at level 100, k at level 200).

(** [df[c]], read through the reference.  A reference to no frame is
    Python's [None], which cannot be subscripted. *)
Definition load_column (df : nat) (c : string) : M column :=
  fun h =>
    match h !! df with
    | Some frame => (getitem frame c, h)
    | None => (Raise (TypeError "subscript"), h)
    end.

(** [df[c] = col]: the column is replaced when the frame has it and added
    otherwise; the index and the other columns stay. *)
Definition setitem (df : nat) (c : string) (col : column) : M unit :=
  fun h =>
    match h !! df with
    | Some frame =>
        (Ok tt, <[df := {| index := index frame; columns := <[c := col]> (columns frame) |}]> h)
    | None => (Raise (TypeError "item assignment"), h)
    end.

(** ** Real returns *)

(** [a - b] on two columns of one frame. *)
Definition col_sub (a b : column) : result column :=
  x <- numeric "-" a ;;
  y <- numeric "-" b ;;
  Ok (NumCol (zip_with fsub x y)).

Definition calculate_real_returns (combined_df : nat) : M nat :=
  do nominal <- load_column combined_df "Nominal_Return";
  do inflation <- load_column combined_df "Inflation_Rate";
  do real <- lift (col_sub nominal inflation);
  do _ <- setitem combined_df "Real_Return" real;
  ret combined_df.

(** ** Regimes on a frame *)

(** [Series.apply(classify_inflation_regime)]: an empty column comes back
    as it is; comparing a string with a number raises. *)
Definition apply_classify (col : column) : result column :=
  match col with
  | NumCol [] => Ok (NumCol [])
  | NumCol v => Ok (StrCol (map classify_inflation_regime v))
  | StrCol [] => Ok (StrCol [])
  | StrCol _ => Raise (TypeError "<")
  end.

Definition add_inflation_regimes (df : nat) : M nat :=
  do inflation <- load_column df "Inflation_Rate";
  do regimes <- lift (apply_classify inflation);
  do _ <- setitem df "Inflation_Regime" regimes;
  ret df.

(** ** Cumulative returns *)

(** [Series.cumprod]: a missing value is skipped by the running product
    and is missing in the result. *)
Fixpoint cumprod_from (acc : float) (v : list float) : list float :=
  match v with
  | [] => []
  | x :: t =>
      if isna x then NaN :: cumprod_from acc t
      else fmul acc x :: cumprod_from (fmul acc x) t
  end.

Definition cumprod (v : list float) : list float := cumprod_from (Fin 1) v.

(** [(1 + r).cumprod() - 1] on the values of a column. *)
Definition cumulative (r : list float) : list float :=
  map (fun x => fsub x (Fin 1)) (cumprod (map (fadd (Fin 1)) r)).

Definition col_cumulative (col : column) : result column :=
  r <- numeric "+" col ;;
  Ok (NumCol (cumulative r)).

Definition calculate_cumulative_returns (df : nat) : M nat :=
  do nominal <- load_column df "Nominal_Return";
  do cum_nominal <- lift (col_cumulative nominal);
  do _ <- setitem df "Cumulative_Nominal" cum_nominal;
  do real <- load_column df "Real_Return";
  do cum_real <- lift (col_cumulative real);
  do _ <- setitem df "Cumulative_Real" cum_real;
  ret df.

(** The product the specification writes for period [t] (counted from 0):
    the growth factors of periods 0..t multiplied, minus one. *)
Definition Rprod (l : list R) : R := foldr Rmult 1 l.

Definition compound (r : list R) (t : nat) : R :=
  Rprod (map (Rplus 1) (take (S t) r)) - 1.

(** The specification's inverse: a period's return read back from two
    consecutive cumulative returns, the one before the first period being
    0. *)
Definition reconstruct_returns (c : list float) : list float :=
  zip_with (fun cur prev => fsub (fdiv (fadd (Fin 1) cur) (fadd (Fin 1) prev)) (Fin 1))
    c (Fin 0 :: c).

(** ** Annualized metrics *)

(** The observations pandas' reductions keep: the default is to skip
    missing values. *)
Definition valid (v : list float) : list float :=
  filter (fun a => notna a = true) v.

Definition fsum (v : list float) : float := foldl fadd (Fin 0) v.

(** [Series.mean()]: the sum over the count, NaN when nothing is left. *)
Definition mean (v : list float) : float :=
  let xs := valid v in
  fdiv (fsum xs) (of_nat (length xs)).

(** [Series.std()], with its default [ddof=1]: NaN unless more than one
    observation is left, else the root of the squared deviations from the
    mean, summed and divided by the count less one. *)
Definition std (v : list float) : float :=
  let xs := valid v in
  let count := length xs in
  if (count <=? 1)%nat then NaN
  else
    let avg := fdiv (fsum xs) (of_nat count) in
    let sqr := map (fun x => fpow (fsub avg x) 2) xs in
    fsqrt (fdiv (fsum sqr) (of_nat (count - 1))).

Definition calculate_annualized_metrics (returns_series : Series) : gmap string float :=
  let ann_return := fsub (fpow (fadd (Fin 1) (mean (s_values returns_series))) 12) (Fin 1) in
  let ann_vol := fmul (std (s_values returns_series)) (fsqrt (Fin 12)) in
  {[ "Annualized_Return" := ann_return;
     "Annualized_Volatility" := ann_vol;
     "Sharpe_Ratio" := if fneb ann_vol (Fin 0) then fdiv ann_return ann_vol else Fin 0 ]}.

(** The statistics the specification names, on real observations. *)
Definition Rsum (l : list R) : R := foldr Rplus 0 l.

Definition sample_mean (xs : list R) : R := Rsum xs / INR (length xs).

Definition sample_std (xs : list R) : R :=
  sqrt (Rsum (map (fun x => (sample_mean xs - x) ^ 2) xs) / INR (length xs - 1)).

(** ** Alignment *)

Definition ts_le (a b : Timestamp) : Prop := ts_ltb b a = false.

Global Instance ts_le_dec (a b : Timestamp) : Decision (ts_le a b).
Proof. unfold ts_le. apply _. Defined.

(** How often a label occurs in an index. *)
Definition count_label (d : Timestamp) (idx : list Timestamp) : nat :=
  length (filter (fun k => k = d) idx).

(** The index pandas gives a frame built from two Series: the first index
    as it is when the second is empty or equal to it, the second when the
    first is empty, and otherwise the labels of both in chronological
    order, each as often as the input that repeats it most. *)
Definition union_index (i1 i2 : list Timestamp) : list Timestamp :=
  if decide (i2 = [] \/ i1 = i2) then i1
  else if decide (i1 = []) then i2
  else
    flat_map (fun d => replicate (Nat.max (count_label d i1) (count_label d i2)) d)
      (merge_sort ts_le (remove_dups (i1 ++ i2))).

(** The value a Series holds at a label, for an index without
    duplicates. *)
Fixpoint at_label {A} (idx : list Timestamp) (vals : list A) (d : Timestamp) : option A :=
  match idx, vals with
  | k :: idx', v :: vals' => if decide (k = d) then Some v else at_label idx' vals' d
  | _, _ => None
  end.

(** [Series.reindex(target)]: nothing to do when the index is the target
    already; otherwise each target label gets the value held at it, or no
    value, and an index with duplicates cannot be reindexed. *)
Definition reindex {A} (idx : list Timestamp) (vals : list A)
    (target : list Timestamp) : result (list (option A)) :=
  if decide (idx = target) then Ok (map Some vals)
  else if decide (NoDup idx) then Ok (map (at_label idx vals) target)
  else Raise (ValueError "cannot reindex on an axis with duplicate labels").

(** A cell that holds a value that is not missing. *)
Definition complete {A} (na : A -> bool) (c : option A) : option A :=
  match c with
  | Some a => if na a then None else Some a
  | None => None
  end.

(** [DataFrame.dropna()] on a frame of two columns: the rows in which
    both cells are complete. *)
Definition dropna_rows {A} (na : A -> bool) (target : list Timestamp)
    (c1 : list (option A)) (c2 : list (option float)) : list (Timestamp * (A * float)) :=
  omap (fun row : Timestamp * (option A * option float) =>
          match complete na row.2.1, complete isna row.2.2 with
          | Some a, Some b => Some (row.1, (a, b))
          | _, _ => None
          end)
       (zip target (zip c1 c2)).

Definition align_data (cpi_df : DataFrame) (returns_series : Series) : result DataFrame :=
  let cpi_index := map month_end (index cpi_df) in
  let returns_index := map month_end (s_index returns_series) in
  inflation <- getitem cpi_df "Inflation_Rate" ;;
  let target := union_index cpi_index returns_index in
  match inflation with
  | NumCol v =>
      c1 <- reindex cpi_index v target ;;
      c2 <- reindex returns_index (s_values returns_series) target ;;
      let rows := dropna_rows isna target c1 c2 in
      Ok {| index := rows.*1;
            columns := {[ "Inflation_Rate" := NumCol (rows.*2.*1);
                          "Nominal_Return" := NumCol (rows.*2.*2) ]} |}
  | StrCol v =>
      c1 <- reindex cpi_index v target ;;
      c2 <- reindex returns_index (s_values returns_series) target ;;
      let rows := dropna_rows (fun _ : string => false) target c1 c2 in
      Ok {| index := rows.*1;
            columns := {[ "Inflation_Rate" := StrCol (rows.*2.*1);
                          "Nominal_Return" := NumCol (rows.*2.*2) ]} |}
  end.

(** The row [dropna] keeps for a date, from the cells two reindexed
    columns hold at it. *)
Definition kept_row {A} (na : A -> bool) (f : Timestamp -> option A)
    (g : Timestamp -> option float) (d : Timestamp) : option (Timestamp * (A * float)) :=
  match complete na (f d), complete isna (g d) with
  | Some a, Some b => Some (d, (a, b))
  | _, _ => None
  end.

(** A series has a value that is not missing at a label. *)
Definition has_value (idx : list Timestamp) (vals : list float) (d : Timestamp) : Prop :=
  exists x, at_label idx vals d = Some x /\ notna x = true.

(** ** Rolling correlation *)

(** The masking pandas applies to the two operands of a pairwise moment:
    [X = arg1 + 0 * arg2] and [Y = arg2 + 0 * arg1], so that a value
    missing on one side is missing on both. *)
Definition prep_binary (arg1 arg2 : list float) : list float * list float :=
  (zip_with (fun a b => fadd a (fmul (Fin 0) b)) arg1 arg2,
   zip_with (fun a b => fadd b (fmul (Fin 0) a)) arg1 arg2).

(** The window routines are given NaN in place of infinities. *)
Definition prep_values (v : list float) : list float :=
  map (fun a => if isinf a then NaN else a) v.

(** The trailing window that ends at position [i]: at most [w] values. *)
Definition window (w i : nat) (v : list float) : list float :=
  drop (S i - w) (take (S i) v).

(** [roll_mean]: the mean of the observations in the window, once there
    are [minp] of them. *)
Definition roll_mean (w minp : nat) (v : list float) (i : nat) : float :=
  let obs := valid (window w i v) in
  let nobs := length obs in
  if (minp <=? nobs)%nat && (0 <? nobs)%nat
  then fdiv (fsum obs) (of_nat nobs)
  else NaN.

(** [roll_var]: the squared deviations from the window's mean, summed and
    divided by the count less [ddof], once there are [minp] observations
    and more than [ddof]. *)
Definition roll_var (w minp ddof : nat) (v : list float) (i : nat) : float :=
  let obs := valid (window w i v) in
  let nobs := length obs in
  if (minp <=? nobs)%nat && (ddof <? nobs)%nat
  then
    let avg := fdiv (fsum obs) (of_nat nobs) in
    fdiv (fsum (map (fun x => fpow (fsub x avg) 2) obs)) (of_nat (nobs - ddof))
  else NaN.

(** [Rolling.corr] at one position, with the default [ddof = 1] and
    [min_periods] equal to the window.  The quotient is returned as it is
    formed: nothing guards a zero denominator and nothing clips the
    result.  Over a window with a zero variance the quotient is NaN or an
    infinity according to whether the numerator is exactly zero, which in
    the code is a matter of rounding; the statements made of this
    definition are of the windows with too little history and of the
    formula, not of the range of its values. *)
Definition rolling_corr_at (w : nat) (x y : list float) (i : nat) : float :=
  let ddof := 1%nat in
  let minp := w in
  let mean_x_y := roll_mean w minp (zip_with fmul x y) i in
  let mean_x := roll_mean w minp x i in
  let mean_y := roll_mean w minp y i in
  let count_x_y := of_nat (length (valid (window w i (zip_with fadd x y)))) in
  let x_var := roll_var w minp ddof x i in
  let y_var := roll_var w minp ddof y i in
  let numerator :=
    fmul (fsub mean_x_y (fmul mean_x mean_y))
         (fdiv count_x_y (fsub count_x_y (of_nat ddof))) in
  let denominator := fpow_half (fmul x_var y_var) in
  fdiv numerator denominator.

Definition rolling_corr (w : nat) (arg1 arg2 : list float) : list float :=
  let x := prep_values (prep_binary arg1 arg2).1 in
  let y := prep_values (prep_binary arg1 arg2).2 in
  map (rolling_corr_at w x y) (seq 0 (length x)).

(** [window] is a Python int; pandas refuses a negative one when the
    rolling object is made, after [df[col1]] and before [df[col2]]. *)
Definition calculate_rolling_correlation (df : DataFrame) (col1 col2 : string)
    (window : Z) : result Series :=
  c1 <- getitem df col1 ;;
  _ <- (if (window <? 0)%Z
        then Raise (ValueError "window must be an integer 0 or greater")
        else Ok tt) ;;
  c2 <- getitem df col2 ;;
  v1 <- numeric "rolling" c1 ;;
  v2 <- numeric "rolling" c2 ;;
  Ok {| s_index := index df; s_values := rolling_corr (Z.to_nat window) v1 v2 |}.

(** The window statistics on real observations: the covariance as
    [Rolling.corr] forms it from the three means, and the variance. *)
Definition sample_cov (xs ys : list R) : R :=
  (Rsum (zip_with Rmult xs ys) / INR (length xs) - sample_mean xs * sample_mean ys)
  * (INR (length xs) / (INR (length xs) - 1)).

Definition sample_var (xs : list R) : R :=
  Rsum (map (fun x => (x - sample_mean xs) ^ 2) xs) / INR (length xs - 1).

(** A window over which a column does not move. *)
Definition constant (xs : list R) : Prop :=
  forall u v, u ∈ xs -> v ∈ xs -> u = v.

(** ** Loading the inflation file *)

(** A column as [pd.read_csv] types it. *)
Inductive raw_column : Type :=
| IntCol (v : list Z)
| FloatCol (v : list float)
| ObjCol (v : list string).

(** The frame [pd.read_csv] returns, before it has a date index: the
    columns of the file by name.  Reading the file itself is outside the
    model. *)
Abbreviation RawFrame := (gmap string raw_column).

Definition raw_getitem (df : RawFrame) (c : string) : result raw_column :=
  match df !! c with
  | Some col => Ok col
  | None => Raise (KeyError c)
  end.

Definition to_column (col : raw_column) : column :=
  match col with
  | IntCol v => NumCol (map (fun z => Fin (IZR z)) v)
  | FloatCol v => NumCol v
  | ObjCol v => StrCol v
  end.

(** [sort_index]: the rows in chronological order. *)
Definition sort_rows {A} (idx : list Timestamp) (vals : list A) : list (Timestamp * A) :=
  merge_sort (fun p q : Timestamp * A => ts_le p.1 q.1) (zip idx vals).

Definition sort_index (idx : list Timestamp) (col : column) : DataFrame :=
  match col with
  | NumCol v =>
      let rows := sort_rows idx v in
      {| index := rows.*1; columns := {[ "Inflation_Rate" := NumCol rows.*2 ]} |}
  | StrCol v =>
      let rows := sort_rows idx v in
      {| index := rows.*1; columns := {[ "Inflation_Rate" := StrCol rows.*2 ]} |}
  end.

Section Loader.

(** [pd.to_datetime] on the Year, Month and Day columns: the dates, or
    nothing when pandas refuses to assemble them and raises ValueError.
    Which components pandas accepts is pandas' own matter and is left
    open here. *)
Variable to_datetime : raw_column -> raw_column -> raw_column -> option (list Timestamp).

(** [load_cpi] once the file is read: the three date columns are taken
    (all three, or KeyError), assembled into the Date column, which
    becomes the index; the Actual column is kept under the name
    Inflation_Rate, and the rows are put in date order. *)
Definition load_cpi (df : RawFrame) : result DataFrame :=
  year <- raw_getitem df "Year" ;;
  month <- raw_getitem df "Month" ;;
  day <- raw_getitem df "Day" ;;
  dates <- match to_datetime year month day with
           | Some dates => Ok dates
           | None => Raise (ValueError "cannot assemble the datetimes")
           end ;;
  actual <- raw_getitem (delete "Date" df) "Actual" ;;
  Ok (sort_index dates (to_column actual)).

End Loader.

(** A date assembly for the examples: integer components that name a day
    of the calendar. *)
Definition calendar_date (y m d : Z) : option Timestamp :=
  if ((1 <=? m) && (m <=? 12) && (1 <=? d) && (d <=? days_in_month y m))%Z
  then Some (mkTimestamp y m d)
  else None.

Fixpoint calendar_dates (ys ms ds : list Z) : option (list Timestamp) :=
  match ys, ms, ds with
  | [], [], [] => Some []
  | y :: ys', m :: ms', d :: ds' =>
      match calendar_date y m d, calendar_dates ys' ms' ds' with
      | Some t, Some ts => Some (t :: ts)
      | _, _ => None
      end
  | _, _, _ => None
  end.

Definition calendar_to_datetime (year month day : raw_column) : option (list Timestamp) :=
  match year, month, day with
  | IntCol ys, IntCol ms, IntCol ds => calendar_dates ys ms ds
  | _, _, _ => None
  end.

(** ** What an in-place assignment may change *)

(** The stores before and after a call that does nothing but assign the
    columns [cs] of the frame at [l]: the other frames are the same
    objects with the same contents, and the frame at [l] keeps its index
    and every column not in [cs]. *)
Record assigns_only (cs : list string) (l : nat) (h h' : store) : Prop :=
  { other_frames : forall l', l' <> l -> h' !! l' = h !! l';
    same_frame : forall df, h !! l = Some df ->
      exists df', h' !! l = Some df' /\ index df' = index df
        /\ forall c, c ∉ cs -> columns df' !! c = columns df !! c;
    no_frame : h !! l = None -> h' !! l = None }.

(** An operation on the frame at [l] that assigns only [cs] and, when it
    returns, returns the reference it was given. *)
Definition in_place (cs : list string) (l : nat) (op : M nat) : Prop :=
  forall h : store,
    assigns_only cs l h (op h).2
    /\ forall l', (op h).1 = Ok l' -> l' = l.

(** An operation that, when it returns, has left the columns [cs] in the
    frame at [l]. *)
Definition assigns (cs : list string) (l : nat) (op : M nat) : Prop :=
  forall (h : store) (l' : nat),
    (op h).1 = Ok l' ->
    exists df', (op h).2 !! l = Some df'
      /\ forall c, c ∈ cs -> is_Some (columns df' !! c).

(** ** The regimes as the charts order them *)

(** [regime_order] of [plot_inflation_regimes]. *)
Definition regime_order : list string :=
  ["Low (<1%)"; "Moderate (1-3%)"; "High (>3%)"].

(** The place of a label in [regime_order], if it has one. *)
Fixpoint position (s : string) (l : list string) : option nat :=
  match l with
  | [] => None
  | x :: l' => if decide (x = s) then Some 0%nat else S <$> position s l'
  end.

(** ** Monthly prices *)

(** The months counted from year 0, and the last day of a month so
    counted. *)
Definition month_ord (t : Timestamp) : Z := (year t * 12 + (month t - 1))%Z.

Definition end_of_month (k : Z) : Timestamp :=
  {| year := (k / 12)%Z; month := (k mod 12 + 1)%Z;
     day := days_in_month (k / 12) (k mod 12 + 1) |}.

(** The bins of [resample('ME')]: every month from the earliest to the
    latest date of the index, whether it has rows or not. *)
Definition months (idx : list Timestamp) : list Z :=
  match idx with
  | [] => []
  | d :: rest =>
      let lo := foldr Z.min (month_ord d) (map month_ord rest) in
      let hi := foldr Z.max (month_ord d) (map month_ord rest) in
      seqZ lo (hi - lo + 1)
  end.

(** The later of two rows, the second winning a tie: the row that comes
    last once the rows are put in date order without reordering equal
    dates. *)
Definition later_row (cand : option (Timestamp * float)) (row : Timestamp * float)
    : option (Timestamp * float) :=
  match cand with
  | None => Some row
  | Some c => if decide (ts_le c.1 row.1) then Some row else Some c
  end.

(** [last()] on one bin: the value of the last row of the month that is
    not missing, or NaN when the month has none. *)
Definition last_in_month (rows : list (Timestamp * float)) (k : Z) : float :=
  match foldl later_row None
          (filter (fun r : Timestamp * float => month_ord r.1 = k /\ notna r.2 = true) rows)
  with
  | Some r => r.2
  | None => NaN
  end.

Definition resample_last (idx : list Timestamp) (vals : list float)
    : list (Timestamp * float) :=
  map (fun k => (end_of_month k, last_in_month (zip idx vals) k)) (months idx).

(** [df[[price_col]].resample('ME').last()] for a numeric price column.
    A column of strings is outside the model: its result would mix
    strings with missing values, which [column] cannot hold; the model
    answers TypeError there and nothing below speaks of that case. *)
Definition resample_to_monthly (df : DataFrame) (price_col : string) : result DataFrame :=
  col <- getitem df price_col ;;
  v <- numeric "resample" col ;;
  let rows := resample_last (index df) v in
  Ok {| index := rows.*1; columns := {[ price_col := NumCol rows.*2 ]} |}.

(** ** Statistics by regime *)

Global Instance float_eq_dec : EqDecision float.
Proof. intros a b. unfold Decision. decide equality. apply Req_dec_T. Defined.

(** The order of two values that are not missing. *)
Definition fle (a b : float) : Prop := fltb b a = false.

Global Instance fle_dec (a b : float) : Decision (fle a b).
Proof. unfold fle. apply _. Defined.

(** The order of Python strings, by code point. *)
Definition str_le (s t : string) : Prop := String.leb s t = true.

Global Instance str_le_dec (s t : string) : Decision (str_le s t).
Proof. unfold str_le. apply _. Defined.

(** The values of the rows whose key is [k]. *)
Definition grouped {K} `{EqDecision K} (keys : list K) (k : K) (vals : list float)
    : list float :=
  (filter (fun p : K * float => p.1 = k) (zip keys vals)).*2.

Definition fmin2 (a b : float) : float := if fltb b a then b else a.
Definition fmax2 (a b : float) : float := if fltb a b then b else a.

(** [min] and [max] of a group: over the values that are not missing, NaN
    when there is none. *)
Definition fmin (v : list float) : float :=
  match valid v with
  | [] => NaN
  | x :: t => foldl fmin2 x t
  end.

Definition fmax (v : list float) : float :=
  match valid v with
  | [] => NaN
  | x :: t => foldl fmax2 x t
  end.

(** The integer nearest to a real number, the even one of two that are
    equally near. *)
Definition rint (x : R) : Z :=
  let n := Int_part x in
  let f := x - IZR n in
  if Rlt_dec f (1 / 2) then n
  else if Rlt_dec (1 / 2) f then (n + 1)%Z
  else if Z.even n then n else (n + 1)%Z.

(** [round(4)] on a cell. *)
Definition round4 (a : float) : float :=
  match a with
  | Fin x => Fin (IZR (rint (x * 10000)) / 10000)
  | _ => a
  end.

(** One row of the table of statistics: the columns the [agg] call names,
    in its order. *)
Record regime_summary : Type :=
  { nominal_count : nat;
    nominal_mean : float; nominal_std : float; nominal_min : float; nominal_max : float;
    real_mean : float; real_std : float; real_min : float; real_max : float;
    inflation_mean : float; inflation_min : float; inflation_max : float }.

Definition summarize {K} `{EqDecision K} (keys : list K) (k : K)
    (nominal real inflation : list float) : regime_summary :=
  let n := grouped keys k nominal in
  let r := grouped keys k real in
  let i := grouped keys k inflation in
  {| nominal_count := length (valid n);
     nominal_mean := round4 (mean n); nominal_std := round4 (std n);
     nominal_min := round4 (fmin n); nominal_max := round4 (fmax n);
     real_mean := round4 (mean r); real_std := round4 (std r);
     real_min := round4 (fmin r); real_max := round4 (fmax r);
     inflation_mean := round4 (mean i);
     inflation_min := round4 (fmin i); inflation_max := round4 (fmax i) |}.

(** A group key: a regime label, or a number when the frame's regime
    column is numeric. *)
Inductive label : Type :=
| Text (s : string)
| Number (x : float).

(** [df.groupby('Inflation_Regime').agg({...}).round(4)]: one row per key
    that occurs, the keys in increasing order, missing keys left out. *)
Definition analyze_by_regime (df : DataFrame) : result (list (label * regime_summary)) :=
  regime <- getitem df "Inflation_Regime" ;;
  nominal <- getitem df "Nominal_Return" ;;
  real <- getitem df "Real_Return" ;;
  inflation <- getitem df "Inflation_Rate" ;;
  n <- numeric "mean" nominal ;;
  r <- numeric "mean" real ;;
  i <- numeric "mean" inflation ;;
  Ok match regime with
     | StrCol keys =>
         map (fun k => (Text k, summarize keys k n r i))
           (merge_sort str_le (remove_dups keys))
     | NumCol keys =>
         map (fun k => (Number k, summarize keys k n r i))
           (merge_sort fle (remove_dups (valid keys)))
     end.

(** The rows that carry the label [k], by position, and the cells of a
    column at given rows. *)
Definition rows_with (keys : list string) (k : string) : list nat :=
  filter (fun j => keys !! j = Some k) (seq 0 (length keys)).

Definition cells (v : list float) (rows : list nat) : list float :=
  omap (fun j => v !! j) rows.

(** The least and the greatest of some numbers. *)
Definition least (xs : list R) (m : R) : Prop :=
  m ∈ xs /\ forall x, x ∈ xs -> m <= x.

Definition greatest (xs : list R) (m : R) : Prop :=
  m ∈ xs /\ forall x, x ∈ xs -> x <= m.

(** A cell [a] of the table shows the mean, the standard deviation, the
    minimum or the maximum of a group whose observations are the numbers
    [xs]: the statistic passed through [round(4)], and NaN where the
    group has too few observations for it. *)
Definition shows_mean (xs : list R) (a : float) : Prop :=
  match xs with
  | [] => a = NaN
  | _ => a = round4 (Fin (sample_mean xs))
  end.

Definition shows_std (xs : list R) (a : float) : Prop :=
  if (length xs <=? 1)%nat then a = NaN else a = round4 (Fin (sample_std xs)).

Definition shows_min (xs : list R) (a : float) : Prop :=
  match xs with
  | [] => a = NaN
  | _ => exists m, least xs m /\ a = round4 (Fin m)
  end.

Definition shows_max (xs : list R) (a : float) : Prop :=
  match xs with
  | [] => a = NaN
  | _ => exists m, greatest xs m /\ a = round4 (Fin m)
  end.

(** ** Well-formed frames *)

Definition col_length (col : column) : nat :=
  match col with
  | NumCol v => length v
  | StrCol v => length v
  end.

(** Every column has one cell per row. *)
Definition wf_frame (df : DataFrame) : Prop :=
  forall c col, columns df !! c = Some col -> col_length col = length (index df).

(** Every frame of the store is well formed. *)
Definition wf_store (h : store) : Prop :=
  forall l df, h !! l = Some df -> wf_frame df.

(** ** Sample inputs *)

Definition jan2020 : Timestamp := mkTimestamp 2020 1 31.
Definition feb2020 : Timestamp := mkTimestamp 2020 2 29.
Definition mar2020 : Timestamp := mkTimestamp 2020 3 31.

(** Two month-end closes of an instrument whose price stays at zero. *)
Definition flat_zero_prices : DataFrame :=
  {| index := [jan2020; feb2020];
     columns := {[ "close" := NumCol [Fin 0; Fin 0] ]} |}.

Definition rising_prices : DataFrame :=
  {| index := [jan2020; feb2020; mar2020];
     columns := {[ "close" := NumCol [Fin 100; Fin 110; Fin 99] ]} |}.

(** The frame of the specification's scenario, with its three aligned
    months. *)
Definition scenario_frame : DataFrame :=
  {| index := [jan2020; feb2020; mar2020];
     columns := {[ "Inflation_Rate" := NumCol [Fin 0.02; Fin 0.02; Fin 0.04];
                   "Nominal_Return" := NumCol [Fin 0.01; Fin (-0.01); Fin 0.02] ]} |}.

Definition scenario_store : store := {[ 0%nat := scenario_frame ]}.

(** The scenario's frame once its real returns are in place. *)
Definition returns_frame : DataFrame :=
  {| index := [jan2020; feb2020; mar2020];
     columns := {[ "Nominal_Return" := NumCol [Fin 0.01; Fin (-0.01); Fin 0.02];
                   "Real_Return" := NumCol [Fin (-0.01); Fin (-0.03); Fin (-0.02)] ]} |}.

(** Two months with the same return. *)
Definition steady_returns : Series :=
  {| s_index := [jan2020; feb2020]; s_values := [Fin 0.01; Fin 0.01] |}.

(** Two months over which inflation stays at 2%. *)
Definition flat_inflation_frame : DataFrame :=
  {| index := [jan2020; feb2020];
     columns := {[ "Inflation_Rate" := NumCol [Fin 0.02; Fin 0.02];
                   "Nominal_Return" := NumCol [Fin 0.01; Fin (-0.01)] ]} |}.

(** Three months over which both columns move. *)
Definition moving_frame : DataFrame :=
  {| index := [jan2020; feb2020; mar2020];
     columns := {[ "Inflation_Rate" := NumCol [Fin 0.02; Fin 0.03; Fin 0.04];
                   "Nominal_Return" := NumCol [Fin 0.01; Fin (-0.01); Fin 0.02] ]} |}.

(** Inflation published twice in January 2020, and returns observed twice
    in that month. *)
Definition twice_a_month_cpi : DataFrame :=
  {| index := [mkTimestamp 2020 1 10; mkTimestamp 2020 1 20];
     columns := {[ "Inflation_Rate" := NumCol [Fin 0.02; Fin 0.03] ]} |}.

Definition twice_a_month_returns : Series :=
  {| s_index := [mkTimestamp 2020 1 15; mkTimestamp 2020 1 31];
     s_values := [Fin 0.01; Fin (-0.01)] |}.

(** Inflation published mid-month for January to March 2020, the March
    figure missing, and month-end returns for February to April. *)
Definition monthly_cpi : DataFrame :=
  {| index := [mkTimestamp 2020 1 14; mkTimestamp 2020 2 13; mkTimestamp 2020 3 11];
     columns := {[ "Inflation_Rate" := NumCol [Fin 0.025; Fin 0.023; NaN] ]} |}.

Definition monthly_returns : Series :=
  {| s_index := [mkTimestamp 2020 2 29; mkTimestamp 2020 3 31; mkTimestamp 2020 4 30];
     s_values := [Fin (-0.08); Fin (-0.12); Fin 0.13] |}.

(** Inflation files as parsed: one without its Year column, one without
    its Actual column, one with a thirteenth month, and a good one. *)
Definition cpi_without_year : RawFrame :=
  {[ "Month" := IntCol [1; 2]%Z; "Day" := IntCol [14; 13]%Z;
     "Actual" := FloatCol [Fin 0.025; Fin 0.023] ]}.

Definition cpi_without_actual : RawFrame :=
  {[ "Year" := IntCol [2020; 2020]%Z; "Month" := IntCol [1; 2]%Z;
     "Day" := IntCol [14; 13]%Z ]}.

Definition cpi_thirteenth_month : RawFrame :=
  {[ "Year" := IntCol [2020; 2020]%Z; "Month" := IntCol [1; 13]%Z;
     "Day" := IntCol [14; 13]%Z;
     "Actual" := FloatCol [Fin 0.025; Fin 0.023] ]}.

(** A frame that has inflation but no returns yet. *)
Definition inflation_only_frame : DataFrame :=
  {| index := [jan2020; feb2020];
     columns := {[ "Inflation_Rate" := NumCol [Fin 0.02; Fin 0.04] ]} |}.

(** A frame that has nominal returns but no real returns yet. *)
Definition nominal_only_frame : DataFrame :=
  {| index := [jan2020; feb2020];
     columns := {[ "Nominal_Return" := NumCol [Fin 0.01; Fin (-0.01)] ]} |}.

(** Daily closes over the turn of a year, one of them missing, with no
    trading day in February. *)
Definition daily_prices : DataFrame :=
  {| index := [mkTimestamp 2019 12 30; mkTimestamp 2019 12 31; mkTimestamp 2020 1 2;
               mkTimestamp 2020 1 31; mkTimestamp 2020 3 2];
     columns := {[ "close" := NumCol [Fin 100; Fin 101; Fin 102; NaN; Fin 99] ]} |}.

(** The scenario's frame with its regimes and real returns. *)
Definition regime_frame : DataFrame :=
  {| index := [jan2020; feb2020; mar2020];
     columns := {[ "Inflation_Rate" := NumCol [Fin 0.02; Fin 0.02; Fin 0.04];
                   "Nominal_Return" := NumCol [Fin 0.01; NaN; Fin 0.02];
                   "Real_Return" := NumCol [Fin (-0.01); NaN; Fin (-0.02)];
                   "Inflation_Regime" :=
                     StrCol ["Moderate (1-3%)"; "Moderate (1-3%)"; "High (>3%)"] ]} |}.
(* ================================================================== *)
(** * Properties *)

(** ** C3: regime classification *)

(** C3. [classify_inflation_regime] is defined on every real rate and
    splits the real line into three buckets: below 0.01 it answers Low,
    from 0.01 up to but excluding 0.03 Moderate, from 0.03 on High; the
    three answers are distinct, and the thresholds 0.01 and 0.03
    themselves fall in Moderate and High. *)
Theorem classify_inflation_regime_partition :
  (forall x : R,
      (x < 0.01 /\ classify_inflation_regime (Fin x) = "Low (<1%)")
      \/ (0.01 <= x < 0.03 /\ classify_inflation_regime (Fin x) = "Moderate (1-3%)")
      \/ (0.03 <= x /\ classify_inflation_regime (Fin x) = "High (>3%)"))
  /\ ("Low (<1%)" <> "Moderate (1-3%)"
      /\ "Low (<1%)" <> "High (>3%)"
      /\ "Moderate (1-3%)" <> "High (>3%)")
  /\ classify_inflation_regime (Fin 0.01) = "Moderate (1-3%)"
  /\ classify_inflation_regime (Fin 0.03) = "High (>3%)".
Proof.
  assert (H : forall x : R,
      (x < 0.01 /\ classify_inflation_regime (Fin x) = "Low (<1%)")
      \/ (0.01 <= x < 0.03 /\ classify_inflation_regime (Fin x) = "Moderate (1-3%)")
      \/ (0.03 <= x /\ classify_inflation_regime (Fin x) = "High (>3%)")).
  { intros x. unfold classify_inflation_regime. simpl.
    destruct (Rlt_dec x 0.01) as [H1|H1].
    - left. split; [lra | reflexivity].
    - destruct (Rlt_dec x 0.03) as [H3|H3].
      + right. left. split; [lra | reflexivity].
      + right. right. split; [lra | reflexivity]. }
  split; [exact H|]. split.
  - repeat split; discriminate.
  - split.
    + destruct (H 0.01) as [[? ?]|[[? ?]|[? ?]]]; [lra | assumption | lra].
    + destruct (H 0.03) as [[? ?]|[[? ?]|[? ?]]]; [lra | lra | assumption].
Qed.

(** ** C1: returns *)

Lemma ffill_from_notna last v :
  Forall (fun a => notna a = true) v -> ffill_from last v = v.
Proof.
  intros H. revert last. induction H as [|a v Ha _ IH]; intros last; simpl.
  - reflexivity.
  - destruct a; simpl in *; try discriminate; now rewrite IH.
Qed.

Lemma pct_change_notna fm a v :
  Forall (fun a => notna a = true) (a :: v) ->
  pct_change fm (a :: v) = NaN :: simple_returns (a :: v).
Proof.
  intros H. unfold pct_change, simple_returns.
  destruct fm.
  - unfold ffill. rewrite (ffill_from_notna _ _ H). reflexivity.
  - reflexivity.
Qed.

Lemma dropna_rows_notna (idx : list Timestamp) (v : list float) :
  Forall (fun a => notna a = true) v ->
  filter (fun r : Timestamp * float => notna (snd r) = true) (zip idx v) = zip idx v.
Proof.
  intros H. revert idx. induction H as [|a v Ha _ IH]; intros [|d idx]; simpl; try reflexivity.
  rewrite filter_cons_True by exact Ha. now rewrite IH.
Qed.

Lemma fdiv_finite_notna x y :
  ~ (x = 0 /\ y = 0) -> notna (fsub (fdiv (Fin x) (Fin y)) (Fin 1)) = true.
Proof.
  intros H. simpl. destruct (Req_dec_T y 0) as [Hy|Hy]; [|reflexivity].
  unfold sign_of. destruct (Req_dec_T x 0) as [Hx|Hx]; [tauto|].
  destruct (Rlt_dec 0 x); reflexivity.
Qed.

Lemma simple_returns_length p : length (simple_returns p) = pred (length p).
Proof.
  unfold simple_returns. rewrite length_zip_with. destruct p; simpl; lia.
Qed.

Lemma simple_returns_lookup p i a b :
  p !! i = Some a -> p !! S i = Some b ->
  simple_returns p !! i = Some (fsub (fdiv b a) (Fin 1)).
Proof.
  intros Ha Hb. unfold simple_returns. rewrite lookup_zip_with.
  rewrite lookup_tail, Hb. simpl. rewrite Ha. reflexivity.
Qed.

Lemma simple_returns_notna p :
  Forall is_finite p ->
  (forall i, ~ (p !! i = Some (Fin 0) /\ p !! S i = Some (Fin 0))) ->
  Forall (fun a => notna a = true) (simple_returns p).
Proof.
  intros Hfin Hz. apply Forall_lookup_2. intros i r Hr.
  unfold simple_returns in Hr. apply lookup_zip_with_Some in Hr.
  destruct Hr as (b & a & -> & Hb & Ha). rewrite lookup_tail in Hb.
  pose proof (Forall_lookup_1 _ _ _ _ Hfin Ha) as Fa.
  pose proof (Forall_lookup_1 _ _ _ _ Hfin Hb) as Fb.
  destruct a as [| | |x]; try contradiction. destruct b as [| | |y]; try contradiction.
  apply fdiv_finite_notna. intros [-> ->]. exact (Hz i (conj Ha Hb)).
Qed.

(** C1, as the code has it.  For every frame whose price column holds
    N >= 2 finite prices, no two consecutive ones both zero,
    [calculate_returns] succeeds with exactly N-1 values: the first date
    is dropped, and the value kept for each later date is that date's
    price over the previous one, minus one. *)
Theorem calculate_returns_spec (fm : fill_method) (df : DataFrame) (c : string)
    (p : list float) :
  columns df !! c = Some (NumCol p) ->
  length (index df) = length p ->
  (2 <= length p)%nat ->
  Forall is_finite p ->
  (forall i, ~ (p !! i = Some (Fin 0) /\ p !! S i = Some (Fin 0))) ->
  exists s,
    calculate_returns fm df c = Ok s
    /\ length (s_values s) = (length p - 1)%nat
    /\ s_index s = tail (index df)
    /\ forall i a b, p !! i = Some a -> p !! S i = Some b ->
         s_values s !! i = Some (fsub (fdiv b a) (Fin 1)).
Proof.
  intros Hc Hlen HN Hfin Hz.
  assert (Hnn : Forall (fun a => notna a = true) p).
  { eapply Forall_impl; [exact Hfin|]. intros [| | |x]; simpl; tauto. }
  pose proof (simple_returns_notna p Hfin Hz) as Hr.
  destruct p as [|a p]; [simpl in HN; lia|].
  destruct (index df) as [|d idx] eqn:Hidx; [discriminate|].
  unfold calculate_returns, getitem. rewrite Hc. simpl bind.
  rewrite Hidx, (pct_change_notna fm a p Hnn).
  unfold dropna. cbn [s_index s_values zip zip_with].
  rewrite filter_cons_False by (simpl; discriminate).
  fold (zip idx (simple_returns (a :: p))).
  rewrite (dropna_rows_notna idx _ Hr).
  assert (Hl : length idx = length (simple_returns (a :: p))).
  { rewrite simple_returns_length. simpl in *. lia. }
  eexists. split; [reflexivity|]. cbn [s_index s_values].
  rewrite fst_zip, snd_zip by lia.
  split; [rewrite simple_returns_length; simpl; lia|].
  split; [reflexivity|].
  intros i x y Hx Hy. now apply simple_returns_lookup.
Qed.

(** Decides the comparisons of real constants the definitions branch on. *)
Ltac float_eval :=
  repeat (simpl; unfold sign_of;
    match goal with
    | |- context [Req_dec_T ?x ?y] => destruct (Req_dec_T x y); try lra
    | |- context [Rlt_dec ?x ?y] => destruct (Rlt_dec x y); try lra
    end); simpl.

(** Equality of two lists of finite values, entry by entry. *)
Ltac float_list_eq :=
  repeat match goal with
    | |- _ :: _ = _ :: _ => f_equal
    | |- Fin _ = Fin _ => apply f_equal; lra
    | |- Some _ = Some _ => apply f_equal
    | |- NumCol _ = NumCol _ => apply f_equal
    end; try reflexivity.

(** C1 as stated fails on a price that stays at zero: both prices are
    present, and no return is left, because zero over zero is NaN and
    [dropna] removes it with the first row. *)
Lemma calculate_returns_zero_prices :
  columns flat_zero_prices !! "close" = Some (NumCol [Fin 0; Fin 0])
  /\ Forall (fun a => notna a = true) [Fin 0; Fin 0]
  /\ calculate_returns pad flat_zero_prices "close" = Ok {| s_index := []; s_values := [] |}
  /\ calculate_returns no_fill flat_zero_prices "close" = Ok {| s_index := []; s_values := [] |}.
Proof.
  assert (Hc : columns flat_zero_prices !! "close" = Some (NumCol [Fin 0; Fin 0])).
  { apply lookup_singleton_eq. }
  split; [exact Hc|]. split; [repeat constructor|].
  assert (Hz : fsub (fdiv (Fin 0) (Fin 0)) (Fin 1) = NaN) by (float_eval; reflexivity).
  split; unfold calculate_returns, getitem; rewrite Hc; simpl bind;
    unfold pct_change, ffill, dropna; cbn [ffill_from isna index flat_zero_prices
      s_index s_values zip zip_with]; rewrite Hz; reflexivity.
Qed.

Lemma calculate_returns_spec_witness :
  exists s,
    calculate_returns pad rising_prices "close" = Ok s
    /\ length (s_values s) = (3 - 1)%nat
    /\ s_index s = [feb2020; mar2020]
    /\ forall i a b,
         [Fin 100; Fin 110; Fin 99] !! i = Some a ->
         [Fin 100; Fin 110; Fin 99] !! S i = Some b ->
         s_values s !! i = Some (fsub (fdiv b a) (Fin 1)).
Proof.
  apply (calculate_returns_spec pad rising_prices "close" [Fin 100; Fin 110; Fin 99]).
  - apply lookup_singleton_eq.
  - reflexivity.
  - simpl; lia.
  - repeat constructor.
  - intros [|[|[|i]]] [H1 H2]; simpl in *; try discriminate; inversion H1; lra.
Defined.

(** ** The store *)

Lemma load_column_ok (h : store) l df c col :
  h !! l = Some df -> columns df !! c = Some col ->
  load_column l c h = (Ok col, h).
Proof. intros Hl Hc. unfold load_column, getitem. now rewrite Hl, Hc. Qed.

Lemma setitem_ok (h : store) l df c col :
  h !! l = Some df ->
  setitem l c col h
  = (Ok tt, <[l := {| index := index df; columns := <[c := col]> (columns df) |}]> h).
Proof. intros Hl. unfold setitem. now rewrite Hl. Qed.

(** ** C4: real returns *)

Lemma calculate_real_returns_ok (h : store) l df n i :
  h !! l = Some df ->
  columns df !! "Nominal_Return" = Some (NumCol n) ->
  columns df !! "Inflation_Rate" = Some (NumCol i) ->
  calculate_real_returns l h
  = (Ok l, <[l := {| index := index df;
                     columns := <["Real_Return" := NumCol (zip_with fsub n i)]> (columns df) |}]> h).
Proof.
  intros Hl Hn Hi. unfold calculate_real_returns, bindM.
  rewrite (load_column_ok h l df _ _ Hl Hn), (load_column_ok h l df _ _ Hl Hi).
  cbn [lift col_sub numeric bind]. rewrite (setitem_ok h l df _ _ Hl). reflexivity.
Qed.

(** C4. On every frame that has numeric nominal-return and inflation
    columns, [calculate_real_returns] stores as real return, row by row,
    the nominal return minus the inflation rate (the difference, not the
    quotient of growth factors); on the scenario with inflation
    0.02, 0.02, 0.04 and nominal returns 0.01, -0.01, 0.02 the real
    returns are -0.01, -0.03, -0.02. *)
Theorem calculate_real_returns_spec :
  (forall (h : store) (l : nat) (df : DataFrame) (n i : list float),
      h !! l = Some df ->
      columns df !! "Nominal_Return" = Some (NumCol n) ->
      columns df !! "Inflation_Rate" = Some (NumCol i) ->
      exists h' df',
        calculate_real_returns l h = (Ok l, h')
        /\ h' !! l = Some df'
        /\ columns df' !! "Real_Return" = Some (NumCol (zip_with fsub n i))
        /\ forall k x y, n !! k = Some (Fin x) -> i !! k = Some (Fin y) ->
             zip_with fsub n i !! k = Some (Fin (x - y)))
  /\ exists h' df',
       calculate_real_returns 0%nat scenario_store = (Ok 0%nat, h')
       /\ h' !! 0%nat = Some df'
       /\ columns df' !! "Real_Return"
          = Some (NumCol [Fin (-0.01); Fin (-0.03); Fin (-0.02)]).
Proof.
  assert (G : forall (h : store) (l : nat) (df : DataFrame) (n i : list float),
      h !! l = Some df ->
      columns df !! "Nominal_Return" = Some (NumCol n) ->
      columns df !! "Inflation_Rate" = Some (NumCol i) ->
      exists h' df',
        calculate_real_returns l h = (Ok l, h')
        /\ h' !! l = Some df'
        /\ columns df' !! "Real_Return" = Some (NumCol (zip_with fsub n i))
        /\ forall k x y, n !! k = Some (Fin x) -> i !! k = Some (Fin y) ->
             zip_with fsub n i !! k = Some (Fin (x - y))).
  { intros h l df n i Hl Hn Hi. do 2 eexists.
    split; [apply (calculate_real_returns_ok h l df n i Hl Hn Hi)|].
    split; [apply lookup_insert_eq|].
    split; [apply lookup_insert_eq|].
    intros k x y Hx Hy. rewrite lookup_zip_with, Hx. simpl. rewrite Hy. simpl.
    reflexivity. }
  split; [exact G|].
  destruct (G scenario_store 0%nat scenario_frame
              [Fin 0.01; Fin (-0.01); Fin 0.02] [Fin 0.02; Fin 0.02; Fin 0.04])
    as (h' & df' & Hrun & Hl & Hc & _).
  - apply lookup_singleton_eq.
  - reflexivity.
  - reflexivity.
  - exists h', df'. split; [exact Hrun|]. split; [exact Hl|].
    rewrite Hc. cbn [zip_with fsub fadd fopp]. do 2 f_equal. float_list_eq.
Qed.

Lemma calculate_real_returns_spec_witness :
  exists h' df',
    calculate_real_returns 0%nat scenario_store = (Ok 0%nat, h')
    /\ h' !! 0%nat = Some df'
    /\ columns df' !! "Real_Return"
       = Some (NumCol (zip_with fsub [Fin 0.01; Fin (-0.01); Fin 0.02]
                                     [Fin 0.02; Fin 0.02; Fin 0.04]))
    /\ forall k x y,
         [Fin 0.01; Fin (-0.01); Fin 0.02] !! k = Some (Fin x) ->
         [Fin 0.02; Fin 0.02; Fin 0.04] !! k = Some (Fin y) ->
         zip_with fsub [Fin 0.01; Fin (-0.01); Fin 0.02]
                       [Fin 0.02; Fin 0.02; Fin 0.04] !! k = Some (Fin (x - y)).
Proof.
  apply (proj1 calculate_real_returns_spec scenario_store 0%nat scenario_frame).
  - apply lookup_singleton_eq.
  - reflexivity.
  - reflexivity.
Defined.

(** ** C8: what the assigning operations change *)

Section InPlace.
Variable cs : list string.
Variable l : nat.

Lemma assigns_only_refl (h : store) : assigns_only cs l h h.
Proof.
  split; [reflexivity| |tauto].
  intros df Hl. exists df. repeat split. exact Hl.
Qed.

Lemma assigns_only_trans (h1 h2 h3 : store) :
  assigns_only cs l h1 h2 -> assigns_only cs l h2 h3 -> assigns_only cs l h1 h3.
Proof.
  intros [O1 S1 N1] [O2 S2 N2]. split.
  - intros l' Hne. now rewrite O2, O1.
  - intros df Hl. destruct (S1 df Hl) as (df1 & Hl1 & Hi1 & Hc1).
    destruct (S2 df1 Hl1) as (df2 & Hl2 & Hi2 & Hc2).
    exists df2. split; [exact Hl2|]. split; [congruence|].
    intros c Hc. now rewrite Hc2, Hc1.
  - auto.
Qed.

Lemma setitem_assigns (h : store) c col :
  c ∈ cs -> assigns_only cs l h (setitem l c col h).2.
Proof.
  intros Hin. unfold setitem. destruct (h !! l) as [df|] eqn:Hl; simpl.
  - split.
    + intros l' Hne. now apply lookup_insert_ne.
    + intros df0 Hdf0. rewrite Hl in Hdf0. injection Hdf0 as <-.
      eexists. split; [apply lookup_insert_eq|]. split; [reflexivity|].
      intros c' Hc'. simpl. apply lookup_insert_ne. intros ->. contradiction.
    + congruence.
  - apply assigns_only_refl.
Qed.

Lemma in_place_ret : in_place cs l (ret l).
Proof. intros h. split; [apply assigns_only_refl|]. simpl. congruence. Qed.

Lemma in_place_load c (k : column -> M nat) :
  (forall col, in_place cs l (k col)) ->
  in_place cs l (bindM (load_column l c) k).
Proof.
  intros Hk h. unfold bindM, load_column.
  destruct (h !! l) as [df|]; [destruct (getitem df c) as [col|e]|]; simpl.
  - apply Hk.
  - split; [apply assigns_only_refl|discriminate].
  - split; [apply assigns_only_refl|discriminate].
Qed.

Lemma in_place_lift {A} (r : result A) (k : A -> M nat) :
  (forall a, in_place cs l (k a)) ->
  in_place cs l (bindM (lift r) k).
Proof.
  intros Hk h. unfold bindM, lift. destruct r as [a|e]; simpl.
  - apply Hk.
  - split; [apply assigns_only_refl|discriminate].
Qed.

Lemma in_place_setitem c col (k : unit -> M nat) :
  c ∈ cs ->
  (forall u, in_place cs l (k u)) ->
  in_place cs l (bindM (setitem l c col) k).
Proof.
  intros Hin Hk h. pose proof (setitem_assigns h c col Hin) as Hs.
  unfold bindM. destruct (setitem l c col h) as [[u|e] h1]; simpl in *.
  - destruct (Hk u h1) as [Ha Hr]. split; [|exact Hr].
    eapply assigns_only_trans; eassumption.
  - split; [exact Hs|discriminate].
Qed.
End InPlace.

Ltac in_place_steps :=
  repeat first
    [ apply in_place_ret
    | apply in_place_load; intros ?
    | apply in_place_lift; intros ?
    | apply in_place_setitem; [set_solver | intros ?] ].

Ltac run_step :=
  match goal with
  | |- context [(<[?l := ?f]> ?h) !! ?l] => rewrite (lookup_insert_eq h l f)
  | |- context [match ?m !! ?k with _ => _ end] => destruct (m !! k) eqn:?
  | |- context [match ?x with _ => _ end] => is_var x; destruct x
  end.

Ltac run_op :=
  unfold bindM, load_column, setitem, lift, ret, getitem, col_sub, col_cumulative,
    apply_classify, numeric, bind;
  repeat (run_step; cbn beta iota); cbn [fst snd]; try discriminate.

Lemma calculate_real_returns_assigns l :
  assigns ["Real_Return"] l (calculate_real_returns l).
Proof.
  intros h l'. unfold calculate_real_returns. run_op.
  all: intros _; eexists; (split; [apply lookup_insert_eq|]).
  all: intros c Hc; apply list_elem_of_singleton in Hc; subst c; cbn [columns].
  all: rewrite lookup_insert_eq; eauto.
Qed.

Lemma add_inflation_regimes_assigns l :
  assigns ["Inflation_Regime"] l (add_inflation_regimes l).
Proof.
  intros h l'. unfold add_inflation_regimes. run_op.
  all: intros _; eexists; (split; [apply lookup_insert_eq|]).
  all: intros c Hc; apply list_elem_of_singleton in Hc; subst c; cbn [columns].
  all: rewrite lookup_insert_eq; eauto.
Qed.

Lemma calculate_cumulative_returns_assigns l :
  assigns ["Cumulative_Nominal"; "Cumulative_Real"] l (calculate_cumulative_returns l).
Proof.
  intros h l'. unfold calculate_cumulative_returns. run_op.
  all: intros _; eexists; (split; [apply lookup_insert_eq|]).
  all: intros c Hc; cbn [columns].
  all: apply elem_of_cons in Hc; destruct Hc as [->|Hc];
    [rewrite lookup_insert_ne by discriminate; rewrite lookup_insert_eq; eauto|].
  all: apply list_elem_of_singleton in Hc; subst c; rewrite lookup_insert_eq; eauto.
Qed.

(** C8, as the code has it.  Each of [calculate_real_returns],
    [add_inflation_regimes] and [calculate_cumulative_returns] works on
    the caller's frame object: whatever the store and the reference, the
    call changes at most the columns it assigns (Real_Return;
    Inflation_Regime; Cumulative_Nominal and Cumulative_Real), leaves the
    frame's index, its other columns and every other frame as they were,
    and when it returns, returns the very reference it was given, with
    those columns in the frame it refers to. *)
Theorem calculator_assigns_in_place (l : nat) :
  (in_place ["Real_Return"] l (calculate_real_returns l)
   /\ assigns ["Real_Return"] l (calculate_real_returns l))
  /\ (in_place ["Inflation_Regime"] l (add_inflation_regimes l)
      /\ assigns ["Inflation_Regime"] l (add_inflation_regimes l))
  /\ (in_place ["Cumulative_Nominal"; "Cumulative_Real"] l (calculate_cumulative_returns l)
      /\ assigns ["Cumulative_Nominal"; "Cumulative_Real"] l
           (calculate_cumulative_returns l)).
Proof.
  split; [|split]; (split; [|first [ apply calculate_real_returns_assigns
                                  | apply add_inflation_regimes_assigns
                                  | apply calculate_cumulative_returns_assigns ]]).
  all: unfold calculate_real_returns, add_inflation_regimes, calculate_cumulative_returns.
  all: in_place_steps.
Qed.

(** C8 as stated fails: after [calculate_real_returns] the caller's frame
    has a column it did not have, and the reference returned is the
    caller's own. *)
Lemma calculate_real_returns_mutates_argument :
  columns scenario_frame !! "Real_Return" = None
  /\ exists h' df',
       calculate_real_returns 0%nat scenario_store = (Ok 0%nat, h')
       /\ h' !! 0%nat = Some df'
       /\ columns df' !! "Real_Return"
          = Some (NumCol (zip_with fsub [Fin 0.01; Fin (-0.01); Fin 0.02]
                                        [Fin 0.02; Fin 0.02; Fin 0.04]))
       /\ h' !! 0%nat <> scenario_store !! 0%nat.
Proof.
  split; [reflexivity|].
  do 2 eexists. split.
  { apply (calculate_real_returns_ok scenario_store 0%nat scenario_frame);
      [apply lookup_singleton_eq | reflexivity | reflexivity]. }
  split; [apply lookup_insert_eq|]. split; [apply lookup_insert_eq|].
  rewrite lookup_insert_eq. unfold scenario_store. rewrite lookup_singleton_eq.
  intros H.
  assert (E : columns scenario_frame !! "Real_Return" = None) by reflexivity.
  apply (f_equal (fun o : option DataFrame =>
                    match o with
                    | Some f => columns f !! "Real_Return"
                    | None => None
                    end)) in H.
  cbn beta iota in H. cbn [columns] in H. rewrite lookup_insert_eq, E in H. discriminate H.
Qed.

(** ** C5: cumulative returns *)

Lemma calculate_cumulative_returns_ok (h : store) l df n r :
  h !! l = Some df ->
  columns df !! "Nominal_Return" = Some (NumCol n) ->
  columns df !! "Real_Return" = Some (NumCol r) ->
  exists h' df',
    calculate_cumulative_returns l h = (Ok l, h')
    /\ h' !! l = Some df'
    /\ columns df' !! "Cumulative_Nominal" = Some (NumCol (cumulative n))
    /\ columns df' !! "Cumulative_Real" = Some (NumCol (cumulative r)).
Proof.
  intros Hl Hn Hr. unfold calculate_cumulative_returns, bindM.
  rewrite (load_column_ok h l df _ _ Hl Hn).
  cbn [lift col_cumulative numeric bind]. rewrite (setitem_ok h l df _ _ Hl).
  match goal with |- context [load_column l "Real_Return" ?h1] =>
    rewrite (load_column_ok h1 l _ "Real_Return" (NumCol r) (lookup_insert_eq _ _ _))
  end.
  2:{ cbn [columns]. rewrite lookup_insert_ne by discriminate. exact Hr. }
  cbn [lift col_cumulative numeric bind].
  match goal with |- context [setitem l "Cumulative_Real" ?c ?h1] =>
    rewrite (setitem_ok h1 l _ "Cumulative_Real" c (lookup_insert_eq _ _ _))
  end.
  do 2 eexists. split; [reflexivity|]. split; [apply lookup_insert_eq|].
  cbn [columns index]. split.
  - rewrite lookup_insert_ne by discriminate. apply lookup_insert_eq.
  - apply lookup_insert_eq.
Qed.

Lemma cumprod_from_finite (r : list R) : forall (a : R) (t : nat),
  (t < length r)%nat ->
  cumprod_from (Fin a) (map (fadd (Fin 1)) (map Fin r)) !! t
  = Some (Fin (a * Rprod (map (Rplus 1) (take (S t) r)))).
Proof.
  induction r as [|x r IH]; intros a t Ht; [simpl in Ht; lia|].
  destruct t as [|t]; cbn [map fadd cumprod_from isna fmul].
  - simpl. do 2 f_equal. unfold Rprod. destruct r; simpl; ring.
  - change ((Fin (a * (1 + x)) :: cumprod_from (Fin (a * (1 + x)))
               (map (fadd (Fin 1)) (map Fin r))) !! S t)
      with (cumprod_from (Fin (a * (1 + x))) (map (fadd (Fin 1)) (map Fin r)) !! t).
    rewrite IH by (simpl in Ht; lia). do 2 f_equal.
    change (take (S (S t)) (x :: r)) with (x :: take (S t) r).
    unfold Rprod. simpl. ring.
Qed.

Lemma cumulative_finite (r : list R) (t : nat) :
  (t < length r)%nat ->
  cumulative (map Fin r) !! t = Some (Fin (compound r t)).
Proof.
  intros Ht. unfold cumulative, cumprod. rewrite list_lookup_fmap.
  rewrite (cumprod_from_finite r 1 t Ht). simpl. do 2 f_equal.
  unfold compound. ring.
Qed.

Lemma reconstruct_from (r : list R) : forall (a p : R),
  a <> 0 -> 1 + p = a ->
  Forall (fun x => x <> -1) r ->
  zip_with (fun cur prev => fsub (fdiv (fadd (Fin 1) cur) (fadd (Fin 1) prev)) (Fin 1))
    (map (fun x => fsub x (Fin 1)) (cumprod_from (Fin a) (map (fadd (Fin 1)) (map Fin r))))
    (Fin p :: map (fun x => fsub x (Fin 1))
                (cumprod_from (Fin a) (map (fadd (Fin 1)) (map Fin r))))
  = map Fin r.
Proof.
  induction r as [|x r IH]; intros a p Ha Hp Hr; [reflexivity|].
  inversion Hr as [|? ? Hx Hr']; subst x0 l.
  cbn [map fadd cumprod_from isna fmul fsub fopp zip_with fdiv].
  destruct (Req_dec_T (1 + p) 0) as [E|_]; [lra|].
  f_equal.
  - cbn [fsub fopp fadd]. apply f_equal. subst a. field. lra.
  - apply (IH (a * (1 + x)) (a * (1 + x) + - (1))).
    + intros E. apply Rmult_integral in E. destruct E; lra.
    + lra.
    + exact Hr'.
Qed.

(** C5, as the code has it.  [calculate_cumulative_returns] stores, for
    the nominal and for the real column each on its own, the running
    product of the growth factors minus one; on finite returns the value
    of period t is the product of (1 + r_i) over the periods up to t,
    minus one; and for finite returns none of which equals -1, the
    returns read back from consecutive cumulative returns, with 0 before
    the first period, are the returns one started from. *)
Theorem calculate_cumulative_returns_spec :
  (forall (h : store) (l : nat) (df : DataFrame) (n r : list float),
      h !! l = Some df ->
      columns df !! "Nominal_Return" = Some (NumCol n) ->
      columns df !! "Real_Return" = Some (NumCol r) ->
      exists h' df',
        calculate_cumulative_returns l h = (Ok l, h')
        /\ h' !! l = Some df'
        /\ columns df' !! "Cumulative_Nominal" = Some (NumCol (cumulative n))
        /\ columns df' !! "Cumulative_Real" = Some (NumCol (cumulative r)))
  /\ (forall (r : list R) (t : nat),
        (t < length r)%nat ->
        cumulative (map Fin r) !! t = Some (Fin (compound r t)))
  /\ (forall r : list R,
        Forall (fun x => x <> -1) r ->
        reconstruct_returns (cumulative (map Fin r)) = map Fin r).
Proof.
  split; [exact calculate_cumulative_returns_ok|].
  split; [exact cumulative_finite|].
  intros r Hr. unfold reconstruct_returns, cumulative, cumprod.
  apply reconstruct_from; [lra | lra | exact Hr].
Qed.

Lemma calculate_cumulative_returns_spec_witness :
  (exists h' df',
      calculate_cumulative_returns 0%nat {[ 0%nat := returns_frame ]} = (Ok 0%nat, h')
      /\ h' !! 0%nat = Some df'
      /\ columns df' !! "Cumulative_Nominal"
         = Some (NumCol (cumulative [Fin 0.01; Fin (-0.01); Fin 0.02]))
      /\ columns df' !! "Cumulative_Real"
         = Some (NumCol (cumulative [Fin (-0.01); Fin (-0.03); Fin (-0.02)])))
  /\ cumulative (map Fin [0.01; -0.01; 0.02]) !! 1%nat
     = Some (Fin (compound [0.01; -0.01; 0.02] 1))
  /\ reconstruct_returns (cumulative (map Fin [0.01; -0.01; 0.02]))
     = map Fin [0.01; -0.01; 0.02].
Proof.
  destruct calculate_cumulative_returns_spec as (H1 & H2 & H3).
  split; [|split].
  - apply (H1 {[ 0%nat := returns_frame ]} 0%nat returns_frame).
    + apply lookup_singleton_eq.
    + reflexivity.
    + reflexivity.
  - apply H2. simpl. lia.
  - apply H3. repeat constructor; lra.
Defined.

(** C5 as stated fails on a return of -1 (a price that falls to zero):
    every later cumulative return is -1, and reading the next return back
    divides zero by zero. *)
Lemma reconstruct_returns_after_total_loss :
  cumulative [Fin (-1); Fin 0.5] = [Fin (-1); Fin (-1)]
  /\ reconstruct_returns [Fin (-1); Fin (-1)] = [Fin (-1); NaN]
  /\ NaN <> Fin 0.5.
Proof.
  split; [|split].
  - unfold cumulative, cumprod. cbn [map fadd cumprod_from isna fmul fsub fopp].
    float_list_eq.
  - unfold reconstruct_returns. cbn [zip_with fadd].
    assert (E : fsub (fdiv (Fin (1 + -1)) (Fin (1 + -1))) (Fin 1) = NaN).
    { float_eval; reflexivity. }
    rewrite E. f_equal. float_eval. apply f_equal. lra.
  - discriminate.
Qed.

(** ** C7 and C10: annualized metrics *)

Lemma valid_finite (xs : list R) : valid (map Fin xs) = map Fin xs.
Proof.
  unfold valid. induction xs as [|x xs IH]; [reflexivity|].
  simpl. rewrite filter_cons_True by reflexivity. now rewrite IH.
Qed.

Lemma foldl_fadd_finite (xs : list R) : forall a : R,
  foldl fadd (Fin a) (map Fin xs) = Fin (a + Rsum xs).
Proof.
  induction xs as [|x xs IH]; intros a; simpl.
  - f_equal. ring.
  - rewrite IH. f_equal. ring.
Qed.

Lemma fsum_finite (xs : list R) : fsum (map Fin xs) = Fin (Rsum xs).
Proof. unfold fsum. rewrite foldl_fadd_finite. f_equal. ring. Qed.

Lemma fpow_finite (y : R) (n : nat) : fpow (Fin y) n = Fin (y ^ n).
Proof. induction n as [|n IH]; simpl; [reflexivity|]. now rewrite IH. Qed.

Lemma fdiv_finite (x y : R) : y <> 0 -> fdiv (Fin x) (Fin y) = Fin (x / y).
Proof. intros Hy. simpl. destruct (Req_dec_T y 0); [contradiction|reflexivity]. Qed.

Lemma fsqrt_finite (x : R) : 0 <= x -> fsqrt (Fin x) = Fin (sqrt x).
Proof. intros Hx. simpl. destruct (Rlt_dec x 0); [lra|reflexivity]. Qed.

Lemma INR_pos (n : nat) : (0 < n)%nat -> 0 < INR n.
Proof. intros H. apply lt_0_INR. exact H. Qed.

Lemma Rsum_squares_nonneg (f : R -> R) (xs : list R) :
  0 <= Rsum (map (fun x => f x ^ 2) xs).
Proof.
  induction xs as [|x xs IH]; simpl; [lra|].
  pose proof (pow2_ge_0 (f x)). simpl in *. lra.
Qed.

Lemma mean_finite (xs : list R) :
  (1 <= length xs)%nat -> mean (map Fin xs) = Fin (sample_mean xs).
Proof.
  intros Hn. unfold mean. rewrite valid_finite, fsum_finite, length_map.
  unfold of_nat. apply fdiv_finite.
  pose proof (INR_pos (length xs) ltac:(lia)). lra.
Qed.

Lemma std_finite (xs : list R) :
  (2 <= length xs)%nat -> std (map Fin xs) = Fin (sample_std xs).
Proof.
  intros Hn. unfold std. rewrite valid_finite, fsum_finite, length_map.
  destruct (length xs <=? 1)%nat eqn:E; [apply Nat.leb_le in E; lia|].
  unfold of_nat.
  pose proof (INR_pos (length xs) ltac:(lia)) as Hp.
  pose proof (INR_pos (length xs - 1) ltac:(lia)) as Hp1.
  rewrite fdiv_finite by lra. fold (sample_mean xs).
  rewrite map_map.
  replace (map (fun x => fpow (fsub (Fin (sample_mean xs)) (Fin x)) 2) xs)
    with (map Fin (map (fun x => (sample_mean xs - x) ^ 2) xs)).
  2:{ rewrite map_map. apply map_ext. intros x. reflexivity. }
  rewrite fsum_finite, fdiv_finite by lra.
  apply fsqrt_finite.
  apply Rmult_le_pos; [apply Rsum_squares_nonneg|].
  apply Rlt_le, Rinv_0_lt_compat. exact Hp1.
Qed.

Lemma fneb_zero (a : float) : fneb a (Fin 0) = false <-> a = Fin 0.
Proof.
  destruct a as [| | |x]; simpl; try (split; discriminate).
  destruct (Req_dec_T x 0) as [->|Hx]; split; try reflexivity; try discriminate.
  intros H. injection H as H. contradiction.
Qed.

(** C7. For every series of monthly returns the metrics are: annualized
    return, one plus the mean to the power 12, minus one; annualized
    volatility, the standard deviation times the root of 12; Sharpe
    ratio, 0 when that volatility is exactly 0 and the annualized return
    over it otherwise.  The function is total: no input makes it raise.
    On finite observations, two or more, the mean and the deviation are
    the sample mean and the sample (N-1) standard deviation. *)
Theorem calculate_annualized_metrics_spec (returns_series : Series) :
  let ann_return := fsub (fpow (fadd (Fin 1) (mean (s_values returns_series))) 12) (Fin 1) in
  let ann_vol := fmul (std (s_values returns_series)) (fsqrt (Fin 12)) in
  let metrics := calculate_annualized_metrics returns_series in
  metrics !! "Annualized_Return" = Some ann_return
  /\ metrics !! "Annualized_Volatility" = Some ann_vol
  /\ (ann_vol = Fin 0 -> metrics !! "Sharpe_Ratio" = Some (Fin 0))
  /\ (ann_vol <> Fin 0 -> metrics !! "Sharpe_Ratio" = Some (fdiv ann_return ann_vol))
  /\ (forall xs : list R,
        s_values returns_series = map Fin xs -> (2 <= length xs)%nat ->
        ann_return = Fin ((1 + sample_mean xs) ^ 12 - 1)
        /\ ann_vol = Fin (sample_std xs * sqrt 12)).
Proof.
  intros ann_return ann_vol metrics.
  assert (Hs : metrics !! "Sharpe_Ratio"
               = Some (if fneb ann_vol (Fin 0) then fdiv ann_return ann_vol else Fin 0))
    by reflexivity.
  split; [reflexivity|]. split; [reflexivity|]. split; [|split].
  - intros Hz. rewrite Hs. apply fneb_zero in Hz. now rewrite Hz.
  - intros Hnz. rewrite Hs. destruct (fneb ann_vol (Fin 0)) eqn:E; [reflexivity|].
    apply fneb_zero in E. contradiction.
  - intros xs Hxs Hn. subst ann_return ann_vol. rewrite Hxs.
    rewrite mean_finite by lia. rewrite std_finite by exact Hn.
    cbn [fadd]. rewrite fpow_finite. rewrite fsqrt_finite by lra.
    split; reflexivity.
Qed.

Lemma steady_returns_volatility :
  fmul (std (s_values steady_returns)) (fsqrt (Fin 12)) = Fin 0.
Proof.
  change (s_values steady_returns) with (map Fin [0.01; 0.01]).
  rewrite std_finite by (simpl; lia). rewrite fsqrt_finite by lra.
  cbn [fmul]. apply f_equal.
  assert (E : sample_std [0.01; 0.01] = 0).
  { unfold sample_std, sample_mean. cbn [map Rsum foldr length Nat.sub INR].
    replace ((((0.01 + (0.01 + 0)) / (1 + 1) - 0.01) ^ 2
              + (((0.01 + (0.01 + 0)) / (1 + 1) - 0.01) ^ 2 + 0)) / 1) with 0 by field.
    apply sqrt_0. }
  rewrite E. ring.
Qed.

Lemma calculate_annualized_metrics_spec_witness :
  fmul (std (s_values steady_returns)) (fsqrt (Fin 12)) = Fin 0
  /\ calculate_annualized_metrics steady_returns !! "Sharpe_Ratio" = Some (Fin 0).
Proof.
  split; [exact steady_returns_volatility|].
  exact (proj1 (proj2 (proj2 (calculate_annualized_metrics_spec steady_returns)))
           steady_returns_volatility).
Defined.

(** C10. With a single observation the standard deviation, and with it
    the annualized volatility, is NaN; NaN is different from 0, so the
    guard lets the division through and the Sharpe ratio is NaN, not 0. *)
Theorem calculate_annualized_metrics_single (d : Timestamp) (x : float) :
  let metrics := calculate_annualized_metrics {| s_index := [d]; s_values := [x] |} in
  std [x] = NaN
  /\ metrics !! "Annualized_Volatility" = Some NaN
  /\ fneb NaN (Fin 0) = true
  /\ metrics !! "Sharpe_Ratio" = Some NaN
  /\ NaN <> Fin 0.
Proof.
  intros metrics.
  assert (Hstd : std [x] = NaN).
  { unfold std, valid. destruct x; reflexivity. }
  assert (Hvol : fmul (std [x]) (fsqrt (Fin 12)) = NaN) by now rewrite Hstd.
  split; [exact Hstd|].
  split; [change (metrics !! "Annualized_Volatility")
            with (Some (fmul (std [x]) (fsqrt (Fin 12)))); now rewrite Hvol|].
  split; [reflexivity|].
  split; [|discriminate].
  change (metrics !! "Sharpe_Ratio")
    with (Some (if fneb (fmul (std [x]) (fsqrt (Fin 12))) (Fin 0)
                then fdiv (fsub (fpow (fadd (Fin 1) (mean [x])) 12) (Fin 1))
                          (fmul (std [x]) (fsqrt (Fin 12)))
                else Fin 0)).
  rewrite Hvol. cbn [fneb].
  destruct (fsub (fpow (fadd (Fin 1) (mean [x])) 12) (Fin 1)); reflexivity.
Qed.

(** ** C6: rolling correlation *)

(** *** The sample variance *)

Lemma sample_var_nonneg (xs : list R) : (2 <= length xs)%nat -> 0 <= sample_var xs.
Proof.
  intros Hn. unfold sample_var.
  pose proof (Rsum_squares_nonneg (fun x => x - sample_mean xs) xs) as Hs. cbn beta in Hs.
  pose proof (INR_pos (length xs - 1) ltac:(lia)) as Hp.
  apply Rmult_le_pos; [exact Hs|]. apply Rlt_le, Rinv_0_lt_compat, Hp.
Qed.

Lemma Rsum_cons (x : R) (l : list R) : Rsum (x :: l) = x + Rsum l.
Proof. reflexivity. Qed.

Lemma squares_zero a xs :
  Rsum (map (fun x => (x - a) ^ 2) xs) = 0 -> Forall (fun x => x = a) xs.
Proof.
  induction xs as [|x xs IH]; intros H; [constructor|].
  cbn [map] in H. rewrite Rsum_cons in H.
  pose proof (pow2_ge_0 (x - a)) as H1.
  pose proof (Rsum_squares_nonneg (fun x => x - a) xs) as H2. cbn beta in H2.
  assert (E1 : (x - a) ^ 2 = 0) by lra.
  assert (E2 : Rsum (map (fun x => (x - a) ^ 2) xs) = 0) by lra.
  constructor; [|exact (IH E2)].
  simpl in E1. assert (x - a = 0) by nra. lra.
Qed.

(** The sample variance of a window is zero when the column does not move
    over it, and positive when it does. *)
Lemma sample_var_pos xs : (2 <= length xs)%nat -> ~ constant xs -> 0 < sample_var xs.
Proof.
  intros Hn Hnc. pose proof (sample_var_nonneg xs Hn) as H0.
  destruct (Req_dec_T (sample_var xs) 0) as [E|E]; [exfalso|lra].
  apply Hnc. intros u v Hu Hv.
  assert (Hs : Rsum (map (fun x => (x - sample_mean xs) ^ 2) xs) = 0).
  { unfold sample_var in E. pose proof (INR_pos (length xs - 1) ltac:(lia)) as Hp.
    apply Rmult_integral in E. destruct E as [E|E]; [exact E|].
    pose proof (Rinv_0_lt_compat _ Hp). lra. }
  pose proof (squares_zero _ _ Hs) as Hall. rewrite Forall_forall in Hall.
  now rewrite (Hall u Hu), (Hall v Hv).
Qed.

Lemma Rsum_constant c xs : Forall (fun x => x = c) xs -> Rsum xs = INR (length xs) * c.
Proof.
  induction 1 as [|x xs -> _ IH]; [simpl; ring|].
  rewrite Rsum_cons, IH. change (length (c :: xs)) with (S (length xs)).
  rewrite S_INR. ring.
Qed.

Lemma sample_var_constant xs : constant xs -> sample_var xs = 0.
Proof.
  intros Hc. destruct xs as [|c t]; [unfold sample_var; simpl; lra|].
  assert (Hall : Forall (fun x => x = c) (c :: t)).
  { apply Forall_forall. intros x Hx. apply Hc; [exact Hx|apply list_elem_of_here]. }
  assert (Hm : sample_mean (c :: t) = c).
  { unfold sample_mean. rewrite (Rsum_constant c _ Hall).
    pose proof (INR_pos (length (c :: t)) ltac:(simpl; lia)). field. lra. }
  unfold sample_var. rewrite Hm.
  assert (Hz : Rsum (map (fun x => (x - c) ^ 2) (c :: t)) = 0).
  { clear Hm Hc. induction Hall as [|x xs -> _ IH]; [reflexivity|].
    cbn [map]. rewrite Rsum_cons, IH. ring. }
  rewrite Hz. unfold Rdiv. ring.
Qed.

(** A quotient by zero is never a number. *)
Lemma fdiv_zero (x : R) : fdiv (Fin x) (Fin 0) = NaN \/ isinf (fdiv (Fin x) (Fin 0)) = true.
Proof.
  cbn [fdiv]. destruct (Req_dec_T 0 0) as [_|H]; [|contradiction].
  destruct (sign_of x) as [[|]|]; cbn; auto.
Qed.

(** *** Windows *)

Lemma fadd_NaN_r a : fadd a NaN = NaN.
Proof. destruct a; reflexivity. Qed.

Lemma fsub_NaN_r a : fsub a NaN = NaN.
Proof. destruct a; reflexivity. Qed.

Lemma fmul_NaN_r a : fmul a NaN = NaN.
Proof. destruct a; reflexivity. Qed.

Lemma fdiv_NaN_r a : fdiv a NaN = NaN.
Proof. destruct a; reflexivity. Qed.

Lemma window_length_le w i v : (length (window w i v) <= w)%nat.
Proof. unfold window. rewrite length_drop, length_take. lia. Qed.

Lemma window_length_early w i v : (S i < w)%nat -> (length (window w i v) < w)%nat.
Proof. intros H. unfold window. rewrite length_drop, length_take. lia. Qed.

Lemma window_full_position w i v :
  (1 <= w)%nat -> length (window w i v) = w -> (i < length v)%nat /\ (w <= S i)%nat.
Proof. unfold window. rewrite length_drop, length_take. lia. Qed.

Lemma window_zip_with (f : float -> float -> float) w i x y :
  window w i (zip_with f x y) = zip_with f (window w i x) (window w i y).
Proof. unfold window. now rewrite zip_with_take, zip_with_drop. Qed.

Lemma valid_length_le v : (length (valid v) <= length v)%nat.
Proof. apply length_filter. Qed.

Lemma valid_all v : length (valid v) = length v -> valid v = v.
Proof.
  unfold valid. induction v as [|a v IH]; [reflexivity|].
  destruct (notna a) eqn:E.
  - rewrite filter_cons_True by exact E. simpl. intros H. f_equal. apply IH. lia.
  - rewrite filter_cons_False by (rewrite E; discriminate).
    pose proof (length_filter (fun a => notna a = true) v). simpl. lia.
Qed.

Lemma valid_notna v : Forall (fun a => notna a = true) (valid v).
Proof. unfold valid. apply Forall_forall. intros a Ha. apply list_elem_of_filter in Ha. tauto. Qed.

Lemma finite_of_notna v :
  Forall (fun a => notna a = true) v -> Forall (fun a => isinf a = false) v ->
  exists xs, v = map Fin xs.
Proof.
  induction v as [|a v IH]; intros Hn Hi.
  - exists []. reflexivity.
  - inversion Hn as [|? ? Ha Hn']; inversion Hi as [|? ? Hb Hi']; subst.
    destruct (IH Hn' Hi') as [xs ->].
    destruct a as [| | |x]; try discriminate. exists (x :: xs). reflexivity.
Qed.

Lemma prep_values_no_inf v : Forall (fun a => isinf a = false) (prep_values v).
Proof.
  unfold prep_values. apply Forall_forall. intros a Ha.
  apply list_elem_of_fmap in Ha. destruct Ha as (b & -> & _). destruct b; reflexivity.
Qed.

Lemma window_Forall (P : float -> Prop) w i v : Forall P v -> Forall P (window w i v).
Proof. intros H. unfold window. apply Forall_drop, Forall_take, H. Qed.

Lemma roll_mean_early w v i : (S i < w)%nat -> roll_mean w w v i = NaN.
Proof.
  intros H. unfold roll_mean.
  pose proof (valid_length_le (window w i v)) as L1.
  pose proof (window_length_early w i v H) as L2.
  destruct (w <=? length (valid (window w i v)))%nat eqn:E; [|reflexivity].
  apply Nat.leb_le in E. lia.
Qed.

Lemma rolling_corr_at_early w x y i : (S i < w)%nat -> rolling_corr_at w x y i = NaN.
Proof.
  intros H. unfold rolling_corr_at.
  rewrite (roll_mean_early w x i H). cbn [fmul]. rewrite fsub_NaN_r. reflexivity.
Qed.

Lemma zip_with_finite (f : float -> float -> float) (g : R -> R -> R) :
  (forall a b, f (Fin a) (Fin b) = Fin (g a b)) ->
  forall xs ys, zip_with f (map Fin xs) (map Fin ys) = map Fin (zip_with g xs ys).
Proof.
  intros Hfg. induction xs as [|x xs IH]; intros [|y ys]; simpl; try reflexivity.
  now rewrite Hfg, IH.
Qed.

Lemma roll_mean_finite w v i xs :
  window w i v = map Fin xs -> length xs = w -> (1 <= w)%nat ->
  roll_mean w w v i = Fin (sample_mean xs).
Proof.
  intros Hw Hlen Hpos. unfold roll_mean. rewrite Hw, valid_finite, length_map, Hlen.
  rewrite Nat.leb_refl. destruct (0 <? w)%nat eqn:E; [|apply Nat.ltb_ge in E; lia].
  cbn [andb]. rewrite fsum_finite. unfold of_nat, sample_mean. rewrite Hlen.
  apply fdiv_finite. pose proof (INR_pos w ltac:(lia)). lra.
Qed.

Lemma roll_var_finite w v i xs :
  window w i v = map Fin xs -> length xs = w -> (2 <= w)%nat ->
  roll_var w w 1 v i = Fin (sample_var xs).
Proof.
  intros Hw Hlen Hpos. unfold roll_var. rewrite Hw, valid_finite, length_map, Hlen.
  rewrite Nat.leb_refl. destruct (1 <? w)%nat eqn:E; [|apply Nat.ltb_ge in E; lia].
  cbn [andb]. rewrite fsum_finite. unfold of_nat.
  pose proof (INR_pos w ltac:(lia)) as Hp.
  pose proof (INR_pos (w - 1) ltac:(lia)) as Hp1.
  rewrite fdiv_finite by lra.
  replace (Rsum xs / INR w) with (sample_mean xs) by (unfold sample_mean; now rewrite Hlen).
  rewrite map_map.
  replace (map (fun x => fpow (fsub (Fin x) (Fin (sample_mean xs))) 2) xs)
    with (map Fin (map (fun x => (x - sample_mean xs) ^ 2) xs)).
  2:{ rewrite map_map. apply map_ext. intros x. reflexivity. }
  rewrite fsum_finite, fdiv_finite by lra.
  unfold sample_var. now rewrite Hlen.
Qed.

(** On a full window of finite values the rolling correlation is the
    sample covariance over the root of the product of the two sample
    variances, with numpy's rules for a zero divisor. *)
Lemma rolling_corr_at_finite w x y i xs ys :
  window w i x = map Fin xs -> window w i y = map Fin ys ->
  length xs = w -> length ys = w -> (2 <= w)%nat ->
  rolling_corr_at w x y i
  = fdiv (Fin (sample_cov xs ys)) (Fin (sqrt (sample_var xs * sample_var ys))).
Proof.
  intros Hx Hy Lx Ly Hw. unfold rolling_corr_at.
  assert (Hxy : window w i (zip_with fmul x y) = map Fin (zip_with Rmult xs ys)).
  { rewrite window_zip_with, Hx, Hy. now apply zip_with_finite. }
  assert (Lxy : length (zip_with Rmult xs ys) = w) by (rewrite length_zip_with; lia).
  rewrite (roll_mean_finite w _ i _ Hxy Lxy ltac:(lia)).
  rewrite (roll_mean_finite w x i xs Hx Lx ltac:(lia)).
  rewrite (roll_mean_finite w y i ys Hy Ly ltac:(lia)).
  rewrite (roll_var_finite w x i xs Hx Lx Hw), (roll_var_finite w y i ys Hy Ly Hw).
  assert (Hc : length (valid (window w i (zip_with fadd x y))) = w).
  { rewrite window_zip_with, Hx, Hy.
    rewrite (zip_with_finite fadd Rplus) by reflexivity.
    rewrite valid_finite, length_map, length_zip_with. lia. }
  rewrite Hc. unfold of_nat.
  assert (Hp : 2 <= INR w) by (apply (le_INR 2); exact Hw).
  cbn [fmul fsub fadd fopp]. rewrite fdiv_finite by (simpl; lra).
  cbn [fmul fpow_half]. 
  assert (Hv : 0 <= sample_var xs * sample_var ys)
    by (apply Rmult_le_pos; apply sample_var_nonneg; lia).
  rewrite fsqrt_finite by exact Hv.
  f_equal. f_equal. unfold sample_cov, sample_mean at 1. rewrite Lxy, Lx. simpl (INR 1).
  unfold sample_mean. rewrite Lx, Ly. field. lra.
Qed.

Lemma zip_with_masked_l (xs : list R) : forall ys,
  length xs = length ys -> zip_with (fun x y => x + 0 * y) xs ys = xs.
Proof.
  induction xs as [|x xs IH]; intros [|y ys] H; simpl in *; try discriminate; try reflexivity.
  rewrite IH by lia. f_equal. ring.
Qed.

Lemma zip_with_masked_r (xs : list R) : forall ys,
  length xs = length ys -> zip_with (fun x y => y + 0 * x) xs ys = ys.
Proof.
  induction xs as [|x xs IH]; intros [|y ys] H; simpl in *; try discriminate; try reflexivity.
  rewrite IH by lia. f_equal. ring.
Qed.

Lemma window_prep_values w i v : window w i (prep_values v) = prep_values (window w i v).
Proof. unfold window, prep_values. now rewrite firstn_map, skipn_map. Qed.

Lemma prep_values_finite xs : prep_values (map Fin xs) = map Fin xs.
Proof. unfold prep_values. rewrite map_map. reflexivity. Qed.

Lemma rolling_corr_lookup w a b i :
  (i < length a)%nat -> (i < length b)%nat ->
  rolling_corr w a b !! i
  = Some (rolling_corr_at w (prep_values (prep_binary a b).1)
                            (prep_values (prep_binary a b).2) i).
Proof.
  intros Ha Hb. unfold rolling_corr.
  rewrite list_lookup_fmap, lookup_seq_lt; [reflexivity|].
  unfold prep_values, prep_binary. cbn [fst]. rewrite length_map, length_zip_with. lia.
Qed.

Lemma rolling_corr_lookup_inv w a b i v :
  rolling_corr w a b !! i = Some v ->
  v = rolling_corr_at w (prep_values (prep_binary a b).1)
                        (prep_values (prep_binary a b).2) i.
Proof.
  unfold rolling_corr. rewrite list_lookup_fmap. intros H.
  destruct (seq 0 _ !! i) as [j|] eqn:E; [|discriminate].
  apply lookup_seq in E. destruct E as [-> _]. cbn [fmap option_fmap option_map] in H.
  injection H as <-. reflexivity.
Qed.

Lemma calculate_rolling_correlation_inv df col1 col2 w s :
  calculate_rolling_correlation df col1 col2 w = Ok s ->
  exists v1 v2,
    columns df !! col1 = Some (NumCol v1) /\ columns df !! col2 = Some (NumCol v2)
    /\ (0 <= w)%Z
    /\ s = {| s_index := index df; s_values := rolling_corr (Z.to_nat w) v1 v2 |}.
Proof.
  unfold calculate_rolling_correlation, getitem.
  destruct (columns df !! col1) as [c1|]; [|discriminate]. cbn [bind].
  destruct (w <? 0)%Z eqn:E; [discriminate|]. cbn [bind].
  destruct (columns df !! col2) as [c2|]; [|discriminate]. cbn [bind].
  destruct c1 as [v1|]; [|discriminate]. destruct c2 as [v2|]; [|discriminate].
  cbn [numeric bind]. intros H. injection H as <-.
  exists v1, v2. apply Z.ltb_ge in E. repeat split; assumption.
Qed.

(** The windows of the two columns as [Rolling.corr] sees them, after the
    masking and the replacement of infinities: unchanged where both hold
    numbers only. *)
Lemma rolling_corr_at_full w v1 v2 i xs ys :
  (2 <= w)%nat ->
  window w i v1 = map Fin xs -> window w i v2 = map Fin ys ->
  length xs = w -> length ys = w ->
  rolling_corr_at w (prep_values (prep_binary v1 v2).1)
                    (prep_values (prep_binary v1 v2).2) i
  = fdiv (Fin (sample_cov xs ys)) (Fin (sqrt (sample_var xs * sample_var ys))).
Proof.
  intros Hw W1 W2 L1 L2.
  assert (Wx : window w i (prep_values (prep_binary v1 v2).1) = map Fin xs).
  { unfold prep_binary. cbn [fst]. rewrite window_prep_values, window_zip_with, W1, W2.
    rewrite (zip_with_finite _ (fun x y => x + 0 * y)) by reflexivity.
    rewrite zip_with_masked_l by lia. apply prep_values_finite. }
  assert (Wy : window w i (prep_values (prep_binary v1 v2).2) = map Fin ys).
  { unfold prep_binary. cbn [snd]. rewrite window_prep_values, window_zip_with, W1, W2.
    rewrite (zip_with_finite _ (fun x y => y + 0 * x)) by reflexivity.
    rewrite zip_with_masked_r by lia. apply prep_values_finite. }
  exact (rolling_corr_at_finite w _ _ i xs ys Wx Wy L1 L2 Hw).
Qed.

(** C6, as the code has it.  Whenever [calculate_rolling_correlation]
    returns, for window w: the value at each of the first w-1 positions
    is undefined.  At a position where both columns have w >= 2 points of
    history, all of them numbers: if both columns move over the window,
    the value is the sample covariance of the two windows over the root
    of the product of their sample variances; if a column does not move
    over the window, that root is zero and the value is no number at all,
    NaN or an infinity, since nothing guards the division. *)
Theorem calculate_rolling_correlation_spec (df : DataFrame) (col1 col2 : string)
    (w : Z) (s : Series) :
  calculate_rolling_correlation df col1 col2 w = Ok s ->
  (forall i v, s_values s !! i = Some v -> (Z.of_nat i + 1 < w)%Z -> v = NaN)
  /\ (forall v1 v2 i xs ys,
        columns df !! col1 = Some (NumCol v1) ->
        columns df !! col2 = Some (NumCol v2) ->
        (2 <= w)%Z ->
        window (Z.to_nat w) i v1 = map Fin xs ->
        window (Z.to_nat w) i v2 = map Fin ys ->
        length xs = Z.to_nat w -> length ys = Z.to_nat w ->
        (~ constant xs -> ~ constant ys ->
         s_values s !! i
         = Some (Fin (sample_cov xs ys / sqrt (sample_var xs * sample_var ys))))
        /\ (constant xs \/ constant ys ->
            exists v, s_values s !! i = Some v /\ (v = NaN \/ isinf v = true))).
Proof.
  intros Hrun.
  destruct (calculate_rolling_correlation_inv _ _ _ _ _ Hrun) as (a & b & Ha & Hb & Hw & ->).
  cbn [s_values]. split.
  - intros i v Hv Hi. apply rolling_corr_lookup_inv in Hv. subst v.
    apply rolling_corr_at_early. lia.
  - intros v1 v2 i xs ys H1 H2 Hw2 W1 W2 L1 L2.
    rewrite Ha in H1. rewrite Hb in H2. injection H1 as <-. injection H2 as <-.
    assert (Hp1 : length (window (Z.to_nat w) i a) = Z.to_nat w)
      by (rewrite W1, length_map; exact L1).
    assert (Hp2 : length (window (Z.to_nat w) i b) = Z.to_nat w)
      by (rewrite W2, length_map; exact L2).
    apply window_full_position in Hp1; [|lia]. apply window_full_position in Hp2; [|lia].
    rewrite rolling_corr_lookup by lia.
    rewrite (rolling_corr_at_full (Z.to_nat w) a b i xs ys ltac:(lia) W1 W2 L1 L2).
    split.
    + intros Hc1 Hc2.
      pose proof (sample_var_pos xs ltac:(lia) Hc1) as P1.
      pose proof (sample_var_pos ys ltac:(lia) Hc2) as P2.
      assert (P : 0 < sample_var xs * sample_var ys) by (apply Rmult_lt_0_compat; assumption).
      pose proof (sqrt_lt_R0 _ P) as Hs.
      rewrite fdiv_finite by lra. reflexivity.
    + intros Hc. eexists. split; [reflexivity|].
      assert (Z0 : sample_var xs * sample_var ys = 0).
      { destruct Hc as [Hc|Hc]; rewrite (sample_var_constant _ Hc); ring. }
      rewrite Z0, sqrt_0. apply fdiv_zero.
Qed.

(** C6 as stated fails where a column does not move over the window: the
    second of two months of unchanged inflation has two points of
    history, and its correlation over a window of 2 is zero over zero,
    undefined. *)
Lemma rolling_correlation_flat_window :
  calculate_rolling_correlation flat_inflation_frame "Inflation_Rate" "Nominal_Return" 2
  = Ok {| s_index := [jan2020; feb2020]; s_values := [NaN; NaN] |}.
Proof.
  unfold calculate_rolling_correlation.
  change (getitem flat_inflation_frame "Inflation_Rate")
    with (Ok (A:=column) (NumCol [Fin 0.02; Fin 0.02])).
  change (getitem flat_inflation_frame "Nominal_Return")
    with (Ok (A:=column) (NumCol [Fin 0.01; Fin (-0.01)])).
  cbn [bind Z.ltb Z.compare numeric]. f_equal. f_equal.
  unfold rolling_corr.
  set (x := prep_values (prep_binary [Fin 0.02; Fin 0.02] [Fin 0.01; Fin (-0.01)]).1).
  set (y := prep_values (prep_binary [Fin 0.02; Fin 0.02] [Fin 0.01; Fin (-0.01)]).2).
  change (length x) with 2%nat. change (Z.to_nat 2) with 2%nat. cbn [seq map].
  rewrite (rolling_corr_at_early 2 x y 0) by lia.
  set (xs := [0.02 + 0 * 0.01; 0.02 + 0 * -0.01]).
  set (ys := [0.01 + 0 * 0.02; -0.01 + 0 * 0.02]).
  rewrite (rolling_corr_at_finite 2 x y 1 xs ys) by (reflexivity || lia).
  assert (C : sample_cov xs ys = 0).
  { unfold sample_cov, sample_mean, xs, ys.
    cbn [zip_with Rsum foldr length INR]. field. }
  assert (V : sample_var xs = 0).
  { unfold sample_var, sample_mean, xs. cbn [map Rsum foldr length Nat.sub INR]. field. }
  rewrite C, V, Rmult_0_l, sqrt_0. float_eval. reflexivity.
Qed.

Lemma moving_frame_correlation :
  calculate_rolling_correlation moving_frame "Inflation_Rate" "Nominal_Return" 2
  = Ok {| s_index := [jan2020; feb2020; mar2020];
          s_values := rolling_corr 2 [Fin 0.02; Fin 0.03; Fin 0.04]
                                     [Fin 0.01; Fin (-0.01); Fin 0.02] |}.
Proof. reflexivity. Qed.

Lemma not_constant_pair (u v : R) : u <> v -> ~ constant [u; v].
Proof.
  intros Hne Hc. apply Hne. apply Hc.
  - apply list_elem_of_here.
  - apply list_elem_of_further, list_elem_of_here.
Qed.

Lemma calculate_rolling_correlation_spec_witness :
  rolling_corr 2 [Fin 0.02; Fin 0.03; Fin 0.04] [Fin 0.01; Fin (-0.01); Fin 0.02] !! 0%nat
  = Some NaN
  /\ rolling_corr 2 [Fin 0.02; Fin 0.03; Fin 0.04] [Fin 0.01; Fin (-0.01); Fin 0.02] !! 1%nat
     = Some (Fin (sample_cov [0.02; 0.03] [0.01; -0.01]
                  / sqrt (sample_var [0.02; 0.03] * sample_var [0.01; -0.01]))).
Proof.
  destruct (calculate_rolling_correlation_spec moving_frame
              "Inflation_Rate" "Nominal_Return" 2 _ moving_frame_correlation)
    as (H1 & H2).
  cbn [s_values] in H1, H2. split.
  - destruct (rolling_corr 2 [Fin 0.02; Fin 0.03; Fin 0.04]
                [Fin 0.01; Fin (-0.01); Fin 0.02] !! 0%nat) as [v|] eqn:E.
    + f_equal. apply (H1 0%nat v E). simpl. lia.
    + rewrite rolling_corr_lookup in E by (simpl; lia). discriminate E.
  - refine (proj1 (H2 [Fin 0.02; Fin 0.03; Fin 0.04] [Fin 0.01; Fin (-0.01); Fin 0.02] 1%nat
              [0.02; 0.03] [0.01; -0.01] eq_refl eq_refl _ eq_refl eq_refl eq_refl eq_refl)
              _ _).
    + lia.
    + apply not_constant_pair. lra.
    + apply not_constant_pair. lra.
Defined.

(** ** C2: alignment *)

(** *** The chronological order *)

Ltac ts_order :=
  repeat match goal with a : Timestamp |- _ => destruct a end;
  unfold ts_le, ts_lt, ts_ltb in *; cbn [year month day] in *;
  repeat match goal with
    | H : _ = true |- _ =>
        first [ apply orb_true_iff in H | apply andb_true_iff in H
              | apply Z.ltb_lt in H | apply Z.eqb_eq in H ]
    | H : _ = false |- _ =>
        first [ apply orb_false_iff in H | apply andb_false_iff in H
              | apply Z.ltb_ge in H | apply Z.eqb_neq in H ]
    | H : _ /\ _ |- _ => destruct H
    | H : _ \/ _ |- _ => destruct H
    end.

Lemma ts_ltb_irrefl a : ts_ltb a a = false.
Proof.
  destruct a as [y m d]. unfold ts_ltb. cbn [year month day].
  rewrite !Z.ltb_irrefl, !Z.eqb_refl. reflexivity.
Qed.

Lemma ts_lt_trans a b c : ts_lt a b -> ts_lt b c -> ts_lt a c.
Proof.
  intros H1 H2. destruct (ts_ltb a c) eqn:E; [exact E|exfalso].
  ts_order; lia.
Qed.

Lemma ts_le_total a b : ts_le a b \/ ts_le b a.
Proof.
  destruct (ts_ltb b a) eqn:E1; [|left; exact E1].
  destruct (ts_ltb a b) eqn:E2; [|right; exact E2].
  exfalso. ts_order; lia.
Qed.

Lemma ts_le_trans a b c : ts_le a b -> ts_le b c -> ts_le a c.
Proof.
  intros H1 H2. destruct (ts_ltb c a) eqn:E; [exfalso|exact E].
  ts_order; lia.
Qed.

Lemma ts_le_lt a b : ts_le a b -> a <> b -> ts_lt a b.
Proof.
  intros H1 Hne. destruct (ts_ltb a b) eqn:E; [exact E|exfalso].
  apply Hne. ts_order; f_equal; lia.
Qed.

Global Instance ts_le_Total : Total ts_le.
Proof. intros a b. apply ts_le_total. Qed.

Global Instance ts_le_Transitive : Transitive ts_le.
Proof. intros a b c. apply ts_le_trans. Qed.

Lemma StronglySorted_ts_lt_NoDup l : StronglySorted ts_lt l -> NoDup l.
Proof.
  induction 1 as [|a l Hs IH Hall]; constructor; [|exact IH].
  intros Hin. rewrite Forall_forall in Hall.
  specialize (Hall a Hin). unfold ts_lt in Hall. rewrite ts_ltb_irrefl in Hall. discriminate.
Qed.

Lemma StronglySorted_le_lt l :
  StronglySorted ts_le l -> NoDup l -> StronglySorted ts_lt l.
Proof.
  induction 1 as [|a l Hs IH Hall]; intros Hnd; constructor.
  - apply IH. now inversion Hnd.
  - apply NoDup_cons in Hnd. destruct Hnd as [Hnotin _].
    rewrite Forall_forall in *. intros b Hb. apply ts_le_lt; [now apply Hall|].
    intros ->. apply Hnotin. exact Hb.
Qed.

(** *** The index of the combined frame *)

Lemma count_label_absent d idx : d ∉ idx -> count_label d idx = 0%nat.
Proof.
  unfold count_label. induction idx as [|k idx IH]; intros Hd; [reflexivity|].
  apply not_elem_of_cons in Hd. destruct Hd as [Hne Hd].
  rewrite filter_cons_False by congruence. now apply IH.
Qed.

Lemma count_label_present d idx : NoDup idx -> d ∈ idx -> count_label d idx = 1%nat.
Proof.
  induction 1 as [|k idx Hk _ IH]; intros Hd; [inversion Hd|].
  unfold count_label in *. destruct (decide (k = d)) as [->|Hne].
  - rewrite filter_cons_True by reflexivity. cbn [length]. f_equal.
    now apply count_label_absent.
  - rewrite filter_cons_False by exact Hne. apply IH.
    apply elem_of_cons in Hd. destruct Hd as [->|Hd]; [contradiction|exact Hd].
Qed.

Lemma flat_map_singletons (f : Timestamp -> list Timestamp) l :
  (forall d, d ∈ l -> f d = [d]) -> flat_map f l = l.
Proof.
  induction l as [|k l IH]; intros H; [reflexivity|].
  simpl. rewrite (H k) by apply list_elem_of_here. simpl. f_equal.
  apply IH. intros d Hd. apply H. now apply list_elem_of_further.
Qed.

Lemma union_index_sorted i1 i2 :
  StronglySorted ts_lt i1 -> StronglySorted ts_lt i2 ->
  StronglySorted ts_lt (union_index i1 i2)
  /\ forall d, d ∈ union_index i1 i2 <-> d ∈ i1 \/ d ∈ i2.
Proof.
  intros S1 S2. unfold union_index.
  destruct (decide (i2 = [] \/ i1 = i2)) as [[->| ->]|_].
  - split; [exact S1|]. intros d. split; [tauto|]. intros [H|H]; [exact H|inversion H].
  - split; [exact S2|]. intros d. tauto.
  - destruct (decide (i1 = [])) as [->|_].
    + split; [exact S2|]. intros d. split; [tauto|]. intros [H|H]; [inversion H|exact H].
    + pose proof (StronglySorted_ts_lt_NoDup _ S1) as N1.
      pose proof (StronglySorted_ts_lt_NoDup _ S2) as N2.
      set (u := merge_sort ts_le (remove_dups (i1 ++ i2))).
      assert (Hperm : u ≡ₚ remove_dups (i1 ++ i2)) by apply merge_sort_Permutation.
      assert (Hmem : forall d, d ∈ u <-> d ∈ i1 \/ d ∈ i2).
      { intros d. rewrite Hperm, elem_of_remove_dups. apply elem_of_app. }
      assert (Hnd : NoDup u) by (rewrite Hperm; apply NoDup_remove_dups).
      rewrite flat_map_singletons.
      * split; [|exact Hmem]. apply StronglySorted_le_lt; [|exact Hnd].
        apply StronglySorted_merge_sort; apply _.
      * intros d Hd. apply Hmem in Hd.
        assert (E : Nat.max (count_label d i1) (count_label d i2) = 1%nat).
        { destruct (decide (d ∈ i1)) as [H1|H1]; destruct (decide (d ∈ i2)) as [H2|H2].
          - now rewrite !count_label_present.
          - now rewrite count_label_present, count_label_absent.
          - now rewrite count_label_absent, count_label_present.
          - tauto. }
        rewrite E. reflexivity.
Qed.

(** *** Reindexing and dropping rows *)

Lemma at_label_head {A} k idx (v : A) vals : at_label (k :: idx) (v :: vals) k = Some v.
Proof. simpl. destruct (decide (k = k)); [reflexivity|contradiction]. Qed.

Lemma at_label_tail {A} k idx (v : A) vals d :
  k <> d -> at_label (k :: idx) (v :: vals) d = at_label idx vals d.
Proof. intros H. simpl. destruct (decide (k = d)); [contradiction|reflexivity]. Qed.

Lemma at_label_elem_of {A} idx (vals : list A) d x :
  at_label idx vals d = Some x -> d ∈ idx.
Proof.
  revert vals. induction idx as [|k idx IH]; intros [|v vals] H; try discriminate.
  simpl in H. destruct (decide (k = d)) as [->|_].
  - apply list_elem_of_here.
  - apply list_elem_of_further. eapply IH. exact H.
Qed.

Lemma at_label_own_index {A} idx : forall vals : list A,
  NoDup idx -> length idx = length vals ->
  map (at_label idx vals) idx = map Some vals.
Proof.
  induction idx as [|k idx IH]; intros [|v vals] Hnd Hlen; try discriminate; [reflexivity|].
  apply NoDup_cons in Hnd. destruct Hnd as [Hk Hnd].
  cbn [map]. rewrite at_label_head. f_equal.
  rewrite <- (IH vals Hnd) by (simpl in Hlen; lia).
  apply map_ext_in. intros d Hd. apply at_label_tail.
  intros ->. apply Hk. now apply list_elem_of_In.
Qed.

Lemma reindex_unique {A} idx (vals : list A) target :
  NoDup idx -> length idx = length vals ->
  reindex idx vals target = Ok (map (at_label idx vals) target).
Proof.
  intros Hnd Hlen. unfold reindex.
  destruct (decide (idx = target)) as [<-|_].
  - now rewrite at_label_own_index.
  - destruct (decide (NoDup idx)); [reflexivity|contradiction].
Qed.

Lemma complete_Some {A} (na : A -> bool) c a :
  complete na c = Some a <-> c = Some a /\ na a = false.
Proof.
  unfold complete. destruct c as [x|]; [|split; [discriminate|intros [? _]; discriminate]].
  destruct (na x) eqn:E; split.
  - discriminate.
  - intros [H Hn]. injection H as ->. congruence.
  - intros H. injection H as ->. split; [reflexivity|exact E].
  - intros [H _]. exact H.
Qed.

Lemma dropna_rows_reindexed {A} (na : A -> bool) f g target :
  dropna_rows na target (map f target) (map g target) = omap (kept_row na f g) target.
Proof.
  unfold dropna_rows. induction target as [|d target IH]; [reflexivity|].
  cbn [map zip zip_with omap list_omap]. unfold kept_row at 1. cbn [fst snd].
  destruct (complete na (f d)); [destruct (complete isna (g d))|]; now rewrite <- IH.
Qed.

Lemma kept_row_Some {A} (na : A -> bool) f g d row :
  kept_row na f g d = Some row <->
  row.1 = d /\ f d = Some row.2.1 /\ na row.2.1 = false
  /\ g d = Some row.2.2 /\ isna row.2.2 = false.
Proof.
  unfold kept_row. destruct row as [d' [a b]]. cbn [fst snd].
  destruct (complete na (f d)) as [a'|] eqn:E1.
  - destruct (complete isna (g d)) as [b'|] eqn:E2.
    + apply complete_Some in E1. apply complete_Some in E2.
      destruct E1 as [E1 N1]. destruct E2 as [E2 N2]. split.
      * intros H. injection H as <- <- <-. tauto.
      * intros (-> & Ha & _ & Hb & _). congruence.
    + split; [discriminate|]. intros (_ & _ & _ & Hb & Nb).
      assert (complete isna (g d) = Some b) by (apply complete_Some; tauto). congruence.
  - split; [discriminate|]. intros (_ & Ha & Na & _).
    assert (complete na (f d) = Some a) by (apply complete_Some; tauto). congruence.
Qed.

Lemma kept_rows_sorted {A} (na : A -> bool) f g target :
  StronglySorted ts_lt target ->
  StronglySorted ts_lt (omap (kept_row na f g) target).*1.
Proof.
  induction 1 as [|k target Hs IH Hall]; [constructor|].
  cbn [omap list_omap]. destruct (kept_row na f g k) as [row|] eqn:E; [|exact IH].
  apply kept_row_Some in E. destruct E as (E & _).
  cbn [fmap list_fmap]. rewrite E. constructor; [exact IH|].
  rewrite Forall_forall in *. intros d Hd.
  apply list_elem_of_fmap in Hd. destruct Hd as (row' & -> & Hrow).
  apply list_elem_of_omap in Hrow. destruct Hrow as (d' & Hd' & E').
  apply kept_row_Some in E'. destruct E' as (-> & _). now apply Hall.
Qed.

(** C2, as the code has it.  When each input, once its dates are moved to
    the end of their month, has strictly increasing dates, [align_data]
    returns a frame that has a row for a date exactly when both inputs
    have a value that is not missing at it; its dates are strictly
    increasing, hence distinct, and each row holds the two inputs' values
    for its date, neither of them missing. *)
Theorem align_data_spec (cpi_df : DataFrame) (returns_series : Series) (v : list float) :
  columns cpi_df !! "Inflation_Rate" = Some (NumCol v) ->
  length (index cpi_df) = length v ->
  length (s_index returns_series) = length (s_values returns_series) ->
  StronglySorted ts_lt (map month_end (index cpi_df)) ->
  StronglySorted ts_lt (map month_end (s_index returns_series)) ->
  exists combined infl noms,
    align_data cpi_df returns_series = Ok combined
    /\ columns combined
       = {[ "Inflation_Rate" := NumCol infl; "Nominal_Return" := NumCol noms ]}
    /\ (forall d, d ∈ index combined <->
          has_value (map month_end (index cpi_df)) v d
          /\ has_value (map month_end (s_index returns_series)) (s_values returns_series) d)
    /\ StronglySorted ts_lt (index combined)
    /\ NoDup (index combined)
    /\ length infl = length (index combined)
    /\ length noms = length (index combined)
    /\ Forall (fun a => notna a = true) infl
    /\ Forall (fun a => notna a = true) noms
    /\ forall i d, index combined !! i = Some d ->
         exists a b, infl !! i = Some a /\ noms !! i = Some b
           /\ at_label (map month_end (index cpi_df)) v d = Some a
           /\ at_label (map month_end (s_index returns_series))
                (s_values returns_series) d = Some b.
Proof.
  intros Hc L1 L2 S1 S2.
  set (i1 := map month_end (index cpi_df)) in *.
  set (i2 := map month_end (s_index returns_series)) in *.
  set (r := s_values returns_series) in *.
  destruct (union_index_sorted i1 i2 S1 S2) as [St Hmem].
  pose proof (StronglySorted_ts_lt_NoDup _ S1) as N1.
  pose proof (StronglySorted_ts_lt_NoDup _ S2) as N2.
  set (rows := omap (kept_row isna (at_label i1 v) (at_label i2 r)) (union_index i1 i2)).
  assert (Hrun : align_data cpi_df returns_series
                 = Ok {| index := rows.*1;
                         columns := {[ "Inflation_Rate" := NumCol (rows.*2.*1);
                                       "Nominal_Return" := NumCol (rows.*2.*2) ]} |}).
  { unfold align_data, getitem. rewrite Hc. cbn [bind]. fold i1 i2 r.
    rewrite (reindex_unique i1 v) by (try exact N1; unfold i1; rewrite length_map; exact L1).
    rewrite (reindex_unique i2 r) by (try exact N2; unfold i2; rewrite length_map; exact L2).
    cbn [bind]. rewrite dropna_rows_reindexed. reflexivity. }
  assert (Hrow : forall row, row ∈ rows ->
            row.1 ∈ union_index i1 i2
            /\ at_label i1 v row.1 = Some row.2.1 /\ isna row.2.1 = false
            /\ at_label i2 r row.1 = Some row.2.2 /\ isna row.2.2 = false).
  { intros row Hin. apply list_elem_of_omap in Hin. destruct Hin as (d & Hd & E).
    apply kept_row_Some in E. destruct E as (-> & E). split; [exact Hd|exact E]. }
  exists {| index := rows.*1;
            columns := {[ "Inflation_Rate" := NumCol (rows.*2.*1);
                          "Nominal_Return" := NumCol (rows.*2.*2) ]} |},
    (rows.*2.*1), (rows.*2.*2).
  cbn [index columns].
  split; [exact Hrun|]. split; [reflexivity|]. split; [|split; [|split]].
  - intros d. split.
    + intros Hd. apply list_elem_of_fmap in Hd. destruct Hd as (row & -> & Hin).
      destruct (Hrow row Hin) as (_ & Ha & Na & Hb & Nb).
      split; eexists; (split; [eassumption|]); unfold notna; [now rewrite Na|now rewrite Nb].
    + intros [(a & Ha & Na) (b & Hb & Nb)].
      apply list_elem_of_fmap. exists (d, (a, b)). split; [reflexivity|].
      apply list_elem_of_omap. exists d. split.
      * apply Hmem. left. eapply at_label_elem_of. exact Ha.
      * apply kept_row_Some. cbn [fst snd]. unfold notna in *.
        destruct (isna a); [discriminate|]. destruct (isna b); [discriminate|]. tauto.
  - apply kept_rows_sorted. exact St.
  - apply StronglySorted_ts_lt_NoDup, kept_rows_sorted. exact St.
  - split; [now rewrite !length_fmap|]. split; [now rewrite !length_fmap|].
    split; [|split].
    + apply Forall_forall. intros a Ha.
      apply list_elem_of_fmap in Ha. destruct Ha as (p & -> & Hp).
      apply list_elem_of_fmap in Hp. destruct Hp as (row & -> & Hin).
      destruct (Hrow row Hin) as (_ & _ & Na & _). unfold notna. now rewrite Na.
    + apply Forall_forall. intros a Ha.
      apply list_elem_of_fmap in Ha. destruct Ha as (p & -> & Hp).
      apply list_elem_of_fmap in Hp. destruct Hp as (row & -> & Hin).
      destruct (Hrow row Hin) as (_ & _ & _ & _ & Nb). unfold notna. now rewrite Nb.
    + intros i d Hi. rewrite list_lookup_fmap in Hi.
      destruct (rows !! i) as [row|] eqn:E; [|discriminate].
      cbn in Hi. injection Hi as <-.
      destruct (Hrow row (list_elem_of_lookup_2 _ _ _ E)) as (_ & Ha & _ & Hb & _).
      exists row.2.1, row.2.2. rewrite !list_lookup_fmap, E. cbn.
      repeat split; assumption.
Qed.

(** C2 as stated fails when two dates of an input fall in one month: both
    inputs then carry January 2020 twice, the combined frame keeps both
    rows, and its dates are not distinct. *)
Lemma align_data_repeated_month :
  exists combined,
    align_data twice_a_month_cpi twice_a_month_returns = Ok combined
    /\ index combined = [jan2020; jan2020]
    /\ ~ NoDup (index combined)
    /\ ~ StronglySorted ts_lt (index combined).
Proof.
  eexists. split; [reflexivity|]. split; [reflexivity|].
  assert (Hnd : ~ NoDup [jan2020; jan2020]).
  { intros H. apply NoDup_cons in H. destruct H as [H _]. apply H, list_elem_of_here. }
  split; [exact Hnd|].
  intros H. apply Hnd. exact (StronglySorted_ts_lt_NoDup _ H).
Qed.

Lemma align_data_spec_witness :
  exists combined,
    align_data monthly_cpi monthly_returns = Ok combined
    /\ (feb2020 ∈ index combined)
    /\ (mar2020 ∉ index combined)
    /\ StronglySorted ts_lt (index combined)
    /\ NoDup (index combined).
Proof.
  destruct (align_data_spec monthly_cpi monthly_returns [Fin 0.025; Fin 0.023; NaN])
    as (combined & infl & noms & Hrun & _ & Hiff & Hs & Hnd & _).
  - reflexivity.
  - reflexivity.
  - reflexivity.
  - repeat (constructor; try reflexivity).
  - repeat (constructor; try reflexivity).
  - exists combined. split; [exact Hrun|]. split; [|split; [|split; assumption]].
    + apply Hiff. split.
      * exists (Fin 0.023). split; reflexivity.
      * exists (Fin (-0.08)). split; reflexivity.
    + intros H. apply Hiff in H. destruct H as [(x & Hx & Hn) _].
      cbv in Hx. injection Hx as <-. discriminate Hn.
Defined.

(** ** C9: the errors of loading *)

(** C9, as the code has it.  Whatever pandas accepts as date components:
    [load_cpi] raises KeyError when the Year, Month or Day column is
    absent; ValueError when the three are there and pandas refuses to
    assemble them; KeyError again when the dates are fine and the Actual
    column is absent; and no step after the file is read raises anything
    but a KeyError or a ValueError. *)
Theorem load_cpi_errors
    (to_datetime : raw_column -> raw_column -> raw_column -> option (list Timestamp))
    (df : RawFrame) :
  (df !! "Year" = None \/ df !! "Month" = None \/ df !! "Day" = None ->
   exists k, load_cpi to_datetime df = Raise (KeyError k))
  /\ (forall y m d,
        df !! "Year" = Some y -> df !! "Month" = Some m -> df !! "Day" = Some d ->
        to_datetime y m d = None ->
        exists msg, load_cpi to_datetime df = Raise (ValueError msg))
  /\ (forall y m d dates,
        df !! "Year" = Some y -> df !! "Month" = Some m -> df !! "Day" = Some d ->
        to_datetime y m d = Some dates ->
        df !! "Actual" = None ->
        load_cpi to_datetime df = Raise (KeyError "Actual"))
  /\ (forall e, load_cpi to_datetime df = Raise e ->
        exc_name e = "KeyError" \/ exc_name e = "ValueError").
Proof.
  unfold load_cpi, raw_getitem. split; [|split; [|split]].
  - intros H.
    destruct (df !! "Year") as [y|]; [|eexists; reflexivity].
    destruct (df !! "Month") as [m|]; [|eexists; reflexivity].
    destruct (df !! "Day") as [d|]; [|eexists; reflexivity].
    destruct H as [H|[H|H]]; discriminate H.
  - intros y m d -> -> -> Hd. cbn [bind]. rewrite Hd. eexists. reflexivity.
  - intros y m d dates -> -> -> Hd Ha. cbn [bind]. rewrite Hd. cbn [bind].
    rewrite lookup_delete_ne by discriminate. now rewrite Ha.
  - intros e.
    destruct (df !! "Year") as [y|]; cbn [bind];
      [|intros H; injection H as <-; left; reflexivity].
    destruct (df !! "Month") as [m|]; cbn [bind];
      [|intros H; injection H as <-; left; reflexivity].
    destruct (df !! "Day") as [d|]; cbn [bind];
      [|intros H; injection H as <-; left; reflexivity].
    destruct (to_datetime y m d) as [dates|]; cbn [bind];
      [|intros H; injection H as <-; right; reflexivity].
    destruct (delete "Date" df !! "Actual") as [a|]; cbn [bind];
      [discriminate|intros H; injection H as <-; left; reflexivity].
Qed.

(** C9 as stated fails: a file without its Year column and a file without
    its Actual column both end in a KeyError, and a thirteenth month in a
    ValueError; the names of these classes are not the ones claimed. *)
Lemma load_cpi_raises_builtin_errors :
  load_cpi calendar_to_datetime cpi_without_year = Raise (KeyError "Year")
  /\ exc_name (KeyError "Year") <> "MalformedInput"
  /\ load_cpi calendar_to_datetime cpi_thirteenth_month
     = Raise (ValueError "cannot assemble the datetimes")
  /\ exc_name (ValueError "cannot assemble the datetimes") <> "MalformedInput"
  /\ load_cpi calendar_to_datetime cpi_without_actual = Raise (KeyError "Actual")
  /\ exc_name (KeyError "Actual") <> "SchemaError".
Proof. repeat split; (reflexivity || discriminate). Qed.

Lemma load_cpi_errors_witness :
  (exists k, load_cpi calendar_to_datetime cpi_without_year = Raise (KeyError k))
  /\ (exists msg, load_cpi calendar_to_datetime cpi_thirteenth_month = Raise (ValueError msg))
  /\ load_cpi calendar_to_datetime cpi_without_actual = Raise (KeyError "Actual").
Proof.
  split; [|split].
  - apply (proj1 (load_cpi_errors calendar_to_datetime cpi_without_year)).
    left. reflexivity.
  - apply (proj1 (proj2 (load_cpi_errors calendar_to_datetime cpi_thirteenth_month))
             (IntCol [2020; 2020]%Z) (IntCol [1; 13]%Z) (IntCol [14; 13]%Z));
      reflexivity.
  - apply (proj1 (proj2 (proj2 (load_cpi_errors calendar_to_datetime cpi_without_actual)))
             (IntCol [2020; 2020]%Z) (IntCol [1; 2]%Z) (IntCol [14; 13]%Z)
             [mkTimestamp 2020 1 14; mkTimestamp 2020 2 13]);
      reflexivity.
Defined.

(* ================================================================== *)
(** * Further properties of the code *)

(** ** Returns on any price column *)

Lemma ffill_from_length last v : length (ffill_from last v) = length v.
Proof.
  revert last. induction v as [|x v IH]; intros last; [reflexivity|].
  simpl. destruct (isna x); simpl; now rewrite IH.
Qed.

Lemma pct_change_length fm v : length (pct_change fm v) = length v.
Proof.
  unfold pct_change.
  assert (E : length (match fm with pad => ffill v | no_fill => v end) = length v).
  { destruct fm; [apply ffill_from_length|reflexivity]. }
  destruct (match fm with pad => ffill v | no_fill => v end) as [|a later].
  - simpl in E. now rewrite <- E.
  - simpl. rewrite length_zip_with. simpl in *. lia.
Qed.

Lemma pct_change_head fm v : pct_change fm v = [] \/ exists r, pct_change fm v = NaN :: r.
Proof.
  unfold pct_change.
  destruct (match fm with pad => ffill v | no_fill => v end); [left|right; eexists]; reflexivity.
Qed.

Lemma dropna_notna s : Forall (fun a => notna a = true) (s_values (dropna s)).
Proof.
  unfold dropna. cbn [s_values]. apply Forall_forall. intros a Ha.
  apply list_elem_of_fmap in Ha. destruct Ha as (row & -> & Hrow).
  apply list_elem_of_filter in Hrow. tauto.
Qed.

Lemma dropna_lengths s : length (s_index (dropna s)) = length (s_values (dropna s)).
Proof. unfold dropna. cbn [s_index s_values]. now rewrite !length_fmap. Qed.

Lemma dropna_length_le s : (length (s_values (dropna s)) <= length (s_values s))%nat.
Proof.
  unfold dropna. cbn [s_values]. rewrite length_fmap.
  etransitivity; [apply length_filter|]. rewrite length_zip. lia.
Qed.

Lemma dropna_head_NaN d idx r :
  dropna {| s_index := d :: idx; s_values := NaN :: r |}
  = dropna {| s_index := idx; s_values := r |}.
Proof.
  unfold dropna. cbn [s_index s_values zip zip_with].
  rewrite filter_cons_False by (simpl; discriminate). reflexivity.
Qed.

(** X1. On every frame whose price column is numeric, and for either
    pandas default, [calculate_returns] returns a series: it holds no
    missing value, has as many dates as values, and at most one value
    fewer than there are prices, so that fewer than two prices give an
    empty series and no error. *)
Theorem calculate_returns_total (fm : fill_method) (df : DataFrame) (c : string)
    (p : list float) :
  columns df !! c = Some (NumCol p) ->
  exists s,
    calculate_returns fm df c = Ok s
    /\ Forall (fun a => notna a = true) (s_values s)
    /\ length (s_index s) = length (s_values s)
    /\ (length (s_values s) <= length p - 1)%nat
    /\ ((length p <= 1)%nat -> s = {| s_index := []; s_values := [] |}).
Proof.
  intros Hc. unfold calculate_returns, getitem. rewrite Hc. cbn [bind numeric].
  eexists. split; [reflexivity|].
  split; [apply dropna_notna|]. split; [apply dropna_lengths|].
  assert (Hle : (length (s_values (dropna {| s_index := index df;
                                              s_values := pct_change fm p |}))
                 <= length p - 1)%nat).
  { pose proof (pct_change_length fm p) as Hlen.
    destruct (pct_change_head fm p) as [E|[r E]]; rewrite E in *.
    - etransitivity; [apply dropna_length_le|]. simpl. lia.
    - destruct (index df) as [|d idx].
      + unfold dropna. simpl. lia.
      + rewrite dropna_head_NaN. etransitivity; [apply dropna_length_le|].
        simpl in *. lia. }
  split; [exact Hle|].
  intros Hp. pose proof (dropna_lengths {| s_index := index df; s_values := pct_change fm p |}).
  destruct (dropna _) as [i v]. cbn [s_index s_values] in *.
  assert (length v = 0%nat) by lia.
  destruct v; [|discriminate]. destruct i; [reflexivity|discriminate].
Qed.

Lemma calculate_returns_total_witness :
  exists s,
    calculate_returns pad
      {| index := [jan2020]; columns := {[ "close" := NumCol [Fin 100] ]} |} "close" = Ok s
    /\ s = {| s_index := []; s_values := [] |}.
Proof.
  destruct (calculate_returns_total pad
              {| index := [jan2020]; columns := {[ "close" := NumCol [Fin 100] ]} |}
              "close" [Fin 100]) as (s & Hrun & _ & _ & _ & Hempty).
  - reflexivity.
  - exists s. split; [exact Hrun|]. apply Hempty. simpl. lia.
Defined.

(** X2. [calculate_returns] raises KeyError exactly when the frame has no
    column of the name it is given, and the key named is that column. *)
Theorem calculate_returns_KeyError (fm : fill_method) (df : DataFrame) (c k : string) :
  calculate_returns fm df c = Raise (KeyError k) <-> columns df !! c = None /\ k = c.
Proof.
  unfold calculate_returns, getitem. destruct (columns df !! c) as [[v|v]|]; cbn [bind numeric].
  - split; [discriminate|intros [? _]; discriminate].
  - split; [discriminate|intros [? _]; discriminate].
  - split; [intros H; injection H as <-; tauto|intros [_ ->]; reflexivity].
Qed.

(** ** Regimes *)

Lemma classify_inflation_regime_range x :
  classify_inflation_regime x ∈ regime_order.
Proof.
  unfold classify_inflation_regime, regime_order.
  destruct (fltb x (Fin 0.01)); [apply list_elem_of_here|].
  destruct (fltb x (Fin 0.03)).
  - apply list_elem_of_further, list_elem_of_here.
  - do 2 apply list_elem_of_further. apply list_elem_of_here.
Qed.

(** X3. Whatever rate it is given, a missing one and the infinities
    included, [classify_inflation_regime] answers one of the three labels
    the regime chart looks for; a missing rate is filed under High, as is
    plus infinity, and minus infinity under Low. *)
Theorem classify_inflation_regime_labels :
  (forall x : float, classify_inflation_regime x ∈ regime_order)
  /\ classify_inflation_regime NaN = "High (>3%)"
  /\ classify_inflation_regime PInf = "High (>3%)"
  /\ classify_inflation_regime NInf = "Low (<1%)".
Proof.
  split; [exact classify_inflation_regime_range|]. repeat split.
Qed.

(** X4. Along the order of the regime chart the classification never goes
    down as the rate goes up: for real rates x <= y, the label of x comes
    no later in [regime_order] than the label of y. *)
Theorem classify_inflation_regime_monotone (x y : R) :
  x <= y ->
  exists i j,
    position (classify_inflation_regime (Fin x)) regime_order = Some i
    /\ position (classify_inflation_regime (Fin y)) regime_order = Some j
    /\ (i <= j)%nat.
Proof.
  intros Hxy. unfold classify_inflation_regime. cbn [fltb].
  destruct (Rlt_dec x 0.01); destruct (Rlt_dec y 0.01); try lra;
    destruct (Rlt_dec x 0.03); destruct (Rlt_dec y 0.03); try lra;
    do 2 eexists; (split; [reflexivity|]); (split; [reflexivity|]); lia.
Qed.

Lemma classify_inflation_regime_monotone_witness :
  exists i j,
    position (classify_inflation_regime (Fin 0.02)) regime_order = Some i
    /\ position (classify_inflation_regime (Fin 0.05)) regime_order = Some j
    /\ (i <= j)%nat.
Proof. apply classify_inflation_regime_monotone. lra. Defined.

(** ** Failures of the assigning operations *)

(** X5. When [calculate_real_returns] or [add_inflation_regimes] raises,
    nothing has been assigned: the store is as it was before the call. *)
Theorem assignment_failure_leaves_store (l : nat) (h : store) (e : exception) :
  ((calculate_real_returns l h).1 = Raise e -> (calculate_real_returns l h).2 = h)
  /\ ((add_inflation_regimes l h).1 = Raise e -> (add_inflation_regimes l h).2 = h).
Proof.
  split.
  - unfold calculate_real_returns. run_op; intros H; try discriminate H; reflexivity.
  - unfold add_inflation_regimes. run_op; intros H; try discriminate H; reflexivity.
Qed.

Lemma assignment_failure_leaves_store_witness :
  (calculate_real_returns 0%nat {[ 0%nat := inflation_only_frame ]}).1
  = Raise (KeyError "Nominal_Return")
  /\ (calculate_real_returns 0%nat {[ 0%nat := inflation_only_frame ]}).2
     = {[ 0%nat := inflation_only_frame ]}.
Proof.
  assert (E : (calculate_real_returns 0%nat {[ 0%nat := inflation_only_frame ]}).1
              = Raise (KeyError "Nominal_Return")) by reflexivity.
  split; [exact E|].
  exact (proj1 (assignment_failure_leaves_store 0%nat {[ 0%nat := inflation_only_frame ]}
                  (KeyError "Nominal_Return")) E).
Defined.

(** X6. [calculate_cumulative_returns] is not all-or-nothing: on a frame
    with numeric nominal returns and no Real_Return column it raises
    KeyError for Real_Return after the cumulative nominal column has been
    assigned, and the caller's frame keeps that column. *)
Theorem calculate_cumulative_returns_partial (h : store) (l : nat) (df : DataFrame)
    (n : list float) :
  h !! l = Some df ->
  columns df !! "Nominal_Return" = Some (NumCol n) ->
  columns df !! "Real_Return" = None ->
  calculate_cumulative_returns l h
  = (Raise (KeyError "Real_Return"),
     <[l := {| index := index df;
               columns := <["Cumulative_Nominal" := NumCol (cumulative n)]> (columns df) |}]> h).
Proof.
  intros Hl Hn Hr. unfold calculate_cumulative_returns, bindM.
  rewrite (load_column_ok h l df _ _ Hl Hn).
  cbn [lift col_cumulative numeric bind]. rewrite (setitem_ok h l df _ _ Hl).
  unfold load_column, getitem. rewrite lookup_insert_eq. cbn [columns].
  rewrite lookup_insert_ne by discriminate. rewrite Hr. reflexivity.
Qed.

Lemma calculate_cumulative_returns_partial_witness :
  calculate_cumulative_returns 0%nat {[ 0%nat := nominal_only_frame ]}
  = (Raise (KeyError "Real_Return"),
     <[0%nat := {| index := index nominal_only_frame;
                   columns := <["Cumulative_Nominal" :=
                                  NumCol (cumulative [Fin 0.01; Fin (-0.01)])]>
                                (columns nominal_only_frame) |}]>
       {[ 0%nat := nominal_only_frame ]}).
Proof.
  apply (calculate_cumulative_returns_partial {[ 0%nat := nominal_only_frame ]} 0%nat
           nominal_only_frame [Fin 0.01; Fin (-0.01)]); reflexivity.
Defined.

(** ** Running an assigning operation again *)

Ltac rerun_step :=
  match goal with
  | |- context [(<[?l := ?f]> ?h) !! ?l] => rewrite (lookup_insert_eq h l f)
  | |- context [(<[?c := ?x]> ?m) !! ?k] =>
      rewrite (lookup_insert_ne m c k x) by discriminate
  | H : ?m !! ?k = _ |- context [?m !! ?k] => rewrite H
  | |- context [match ?m !! ?k with _ => _ end] => destruct (m !! k) eqn:?
  | |- context [match ?x with _ => _ end] => is_var x; destruct x
  end.

Ltac rerun_op :=
  unfold bindM, load_column, setitem, lift, ret, getitem, col_sub, col_cumulative,
    apply_classify, numeric, bind;
  repeat (rerun_step; cbn beta iota; cbn [columns index]); try reflexivity.

(** X7. Each of the three assigning operations can be run again without
    effect: calling it a second time on the frame it returned gives the
    same result and leaves the store as the first call did, whether the
    call returns or raises. *)
Theorem assigning_operations_idempotent (l : nat) (h : store) :
  bindM (calculate_real_returns l) calculate_real_returns h = calculate_real_returns l h
  /\ bindM (add_inflation_regimes l) add_inflation_regimes h = add_inflation_regimes l h
  /\ bindM (calculate_cumulative_returns l) calculate_cumulative_returns h
     = calculate_cumulative_returns l h.
Proof.
  split; [|split].
  - unfold calculate_real_returns. rerun_op.
    f_equal. rewrite insert_insert_eq. do 2 f_equal. apply insert_insert_eq.
  - unfold add_inflation_regimes. rerun_op.
    all: f_equal; rewrite insert_insert_eq; do 2 f_equal; apply insert_insert_eq.
  - unfold calculate_cumulative_returns. rerun_op.
    f_equal. rewrite !insert_insert_eq. do 2 f_equal.
    apply map_eq. intros k.
    destruct (decide (k = "Cumulative_Real")) as [->|H1];
      [now rewrite !lookup_insert_eq|].
    rewrite !(lookup_insert_ne _ "Cumulative_Real") by congruence.
    destruct (decide (k = "Cumulative_Nominal")) as [->|H2];
      [now rewrite !lookup_insert_eq|].
    rewrite !(lookup_insert_ne _ "Cumulative_Nominal") by congruence.
    rewrite !(lookup_insert_ne _ "Cumulative_Real") by congruence.
    rewrite !(lookup_insert_ne _ "Cumulative_Nominal") by congruence.
    reflexivity.
Qed.

(** ** Well-formed frames stay well formed *)

Lemma wf_store_insert (h : store) l df :
  wf_store h -> wf_frame df -> wf_store (<[l := df]> h).
Proof.
  intros Hh Hdf l0 df0 H0. destruct (decide (l0 = l)) as [->|Hne].
  - rewrite lookup_insert_eq in H0. now injection H0 as <-.
  - rewrite lookup_insert_ne in H0 by congruence. eapply Hh, H0.
Qed.

Lemma wf_frame_insert idx (cols : gmap string column) c col :
  wf_frame {| index := idx; columns := cols |} ->
  col_length col = length idx ->
  wf_frame {| index := idx; columns := <[c := col]> cols |}.
Proof.
  intros Hwf Hlen c0 col0. cbn [columns index].
  destruct (decide (c0 = c)) as [->|Hne].
  - rewrite lookup_insert_eq. intros H. now injection H as <-.
  - rewrite lookup_insert_ne by congruence. apply Hwf.
Qed.

Lemma wf_frame_eta df : wf_frame df -> wf_frame {| index := index df; columns := columns df |}.
Proof. now destruct df. Qed.

Lemma cumprod_from_length acc v : length (cumprod_from acc v) = length v.
Proof.
  revert acc. induction v as [|x v IH]; intros acc; [reflexivity|].
  simpl. destruct (isna x); simpl; now rewrite IH.
Qed.

Lemma cumulative_length r : length (cumulative r) = length r.
Proof. unfold cumulative, cumprod. now rewrite length_map, cumprod_from_length, length_map. Qed.

Ltac wf_columns :=
  repeat match goal with
    | |- wf_store (<[_ := _]> _) => apply wf_store_insert
    | |- wf_frame {| index := _; columns := <[_ := _]> _ |} => apply wf_frame_insert
    | |- wf_frame {| index := index ?df; columns := columns ?df |} => apply wf_frame_eta
    end.

(** X8. The three assigning operations keep every frame of the store
    well formed: if each column of each frame has one cell per row before
    the call, so it has after it, whether the call returns or raises. *)
Theorem assigning_operations_keep_frames_well_formed (l : nat) (h : store) :
  wf_store h ->
  wf_store (calculate_real_returns l h).2
  /\ wf_store (add_inflation_regimes l h).2
  /\ wf_store (calculate_cumulative_returns l h).2.
Proof.
  intros Hwf. split; [|split].
  - unfold calculate_real_returns. rerun_op; cbn [snd]; try assumption.
    wf_columns; try assumption; [eapply Hwf; eassumption|].
    cbn [col_length]. rewrite length_zip_with.
    match goal with
    | H1 : columns ?d !! "Nominal_Return" = _, H2 : columns ?d !! "Inflation_Rate" = _,
      H3 : h !! l = Some ?d |- _ =>
        pose proof (Hwf _ _ H3 _ _ H1) as L1; pose proof (Hwf _ _ H3 _ _ H2) as L2
    end.
    cbn [col_length] in L1, L2. lia.
  - unfold add_inflation_regimes. rerun_op; cbn [snd]; try assumption.
    all: wf_columns; try assumption; [eapply Hwf; eassumption|].
    all: match goal with
         | H1 : columns ?d !! "Inflation_Rate" = _, H3 : _ !! _ = Some ?d |- _ =>
             pose proof (Hwf _ _ H3 _ _ H1) as L1
         end.
    all: cbn [col_length] in *; rewrite ?length_map; exact L1.
  - unfold calculate_cumulative_returns. rerun_op; cbn [snd]; try assumption.
    all: wf_columns; try assumption; try (eapply Hwf; eassumption).
    all: cbn [col_length]; rewrite ?cumulative_length.
    all: match goal with
         | H1 : columns ?d !! ?c = Some (NumCol ?v), H3 : _ !! _ = Some ?d
           |- length ?v = _ => exact (Hwf _ _ H3 _ _ H1)
         end.
Qed.

Lemma assigning_operations_keep_frames_well_formed_witness :
  wf_store (calculate_real_returns 0%nat scenario_store).2
  /\ wf_store (add_inflation_regimes 0%nat scenario_store).2
  /\ wf_store (calculate_cumulative_returns 0%nat scenario_store).2.
Proof.
  apply assigning_operations_keep_frames_well_formed.
  intros l df Hl c col Hc. unfold scenario_store in Hl.
  apply lookup_singleton_Some in Hl. destruct Hl as [<- <-].
  unfold scenario_frame in Hc. cbn [columns index] in *.
  apply lookup_insert_Some in Hc. destruct Hc as [[_ <-]|[_ Hc]]; [reflexivity|].
  apply lookup_singleton_Some in Hc. destruct Hc as [_ <-]. reflexivity.
Defined.

(** ** The operations in sequence *)

(** X9. Real returns, regimes and cumulative returns in this order, each
    call on the reference the previous one returned, succeed on every
    frame with numeric nominal-return and inflation columns and at least
    one row: the reference that comes back is the caller's, the index and
    the two input columns are as before, and the frame has gained the real
    returns, the regime of each rate, and the cumulative nominal and real
    returns, the last computed from the real returns of the first step. *)
Theorem calculator_steps_compose (h : store) (l : nat) (df : DataFrame)
    (n i : list float) :
  h !! l = Some df ->
  columns df !! "Nominal_Return" = Some (NumCol n) ->
  columns df !! "Inflation_Rate" = Some (NumCol i) ->
  i <> [] ->
  exists h' df',
    bindM (calculate_real_returns l)
      (fun a => bindM (add_inflation_regimes a) calculate_cumulative_returns) h
    = (Ok l, h')
    /\ h' !! l = Some df'
    /\ index df' = index df
    /\ columns df' !! "Nominal_Return" = Some (NumCol n)
    /\ columns df' !! "Inflation_Rate" = Some (NumCol i)
    /\ columns df' !! "Real_Return" = Some (NumCol (zip_with fsub n i))
    /\ columns df' !! "Inflation_Regime"
       = Some (StrCol (map classify_inflation_regime i))
    /\ columns df' !! "Cumulative_Nominal" = Some (NumCol (cumulative n))
    /\ columns df' !! "Cumulative_Real" = Some (NumCol (cumulative (zip_with fsub n i))).
Proof.
  intros Hl Hn Hi Hne. destruct i as [|x i]; [contradiction|].
  do 2 eexists. split.
  - unfold calculate_real_returns, add_inflation_regimes, calculate_cumulative_returns.
    rerun_op.
  - split; [apply lookup_insert_eq|]. cbn [index columns].
    split; [reflexivity|].
    repeat split;
      repeat first [ rewrite lookup_insert_eq; reflexivity
                   | rewrite lookup_insert_ne by discriminate ];
      assumption.
Qed.

Lemma calculator_steps_compose_witness :
  exists h' df',
    bindM (calculate_real_returns 0%nat)
      (fun a => bindM (add_inflation_regimes a) calculate_cumulative_returns) scenario_store
    = (Ok 0%nat, h')
    /\ h' !! 0%nat = Some df'
    /\ columns df' !! "Cumulative_Real"
       = Some (NumCol (cumulative (zip_with fsub [Fin 0.01; Fin (-0.01); Fin 0.02]
                                                 [Fin 0.02; Fin 0.02; Fin 0.04]))).
Proof.
  destruct (calculator_steps_compose scenario_store 0%nat scenario_frame
              [Fin 0.01; Fin (-0.01); Fin 0.02] [Fin 0.02; Fin 0.02; Fin 0.04])
    as (h' & df' & Hrun & Hl & _ & _ & _ & _ & _ & _ & Hc).
  - apply lookup_singleton_eq.
  - reflexivity.
  - reflexivity.
  - discriminate.
  - exists h', df'. repeat split; assumption.
Defined.

(** ** Alignment on any inputs *)

Lemma dropna_rows_complete {A} (na : A -> bool) target c1 c2 row :
  row ∈ dropna_rows na target c1 c2 -> na row.2.1 = false /\ isna row.2.2 = false.
Proof.
  unfold dropna_rows. intros H. apply list_elem_of_omap in H.
  destruct H as (cells & _ & H).
  destruct (complete na cells.2.1) as [a|] eqn:E1; [|discriminate].
  destruct (complete isna cells.2.2) as [b|] eqn:E2; [|discriminate].
  injection H as <-. cbn [fst snd].
  apply complete_Some in E1. apply complete_Some in E2. tauto.
Qed.

(** X10. Whatever the two inputs, when [align_data] returns for a numeric
    inflation column, the frame has exactly the columns Inflation_Rate
    and Nominal_Return, each with one cell per row, and no cell of either
    is missing. *)
Theorem align_data_rows_complete (cpi_df : DataFrame) (returns_series : Series)
    (v : list float) (combined : DataFrame) :
  columns cpi_df !! "Inflation_Rate" = Some (NumCol v) ->
  align_data cpi_df returns_series = Ok combined ->
  exists infl noms,
    columns combined
    = {[ "Inflation_Rate" := NumCol infl; "Nominal_Return" := NumCol noms ]}
    /\ length infl = length (index combined)
    /\ length noms = length (index combined)
    /\ Forall (fun a => notna a = true) infl
    /\ Forall (fun a => notna a = true) noms.
Proof.
  intros Hc. unfold align_data, getitem. rewrite Hc. cbn [bind].
  destruct (reindex _ v _) as [c1|e]; [|discriminate]. cbn [bind].
  destruct (reindex _ (s_values returns_series) _) as [c2|e]; [|discriminate]. cbn [bind].
  intros H. injection H as <-. cbn [index columns].
  do 2 eexists. split; [reflexivity|].
  split; [now rewrite !length_fmap|]. split; [now rewrite !length_fmap|].
  split; apply Forall_forall; intros a Ha;
    apply list_elem_of_fmap in Ha; destruct Ha as (p & -> & Hp);
    apply list_elem_of_fmap in Hp; destruct Hp as (row & -> & Hrow);
    apply dropna_rows_complete in Hrow; unfold notna;
    destruct Hrow as [H1 H2]; [now rewrite H1|now rewrite H2].
Qed.

Lemma align_data_rows_complete_witness :
  exists infl noms,
    length infl = 2%nat /\ length noms = 2%nat
    /\ Forall (fun a => notna a = true) infl
    /\ Forall (fun a => notna a = true) noms.
Proof.
  destruct (align_data_rows_complete twice_a_month_cpi twice_a_month_returns
              [Fin 0.02; Fin 0.03]
              {| index := [jan2020; jan2020];
                 columns := {[ "Inflation_Rate" := NumCol [Fin 0.02; Fin 0.03];
                               "Nominal_Return" := NumCol [Fin 0.01; Fin (-0.01)] ]} |})
    as (infl & noms & _ & L1 & L2 & F1 & F2).
  - reflexivity.
  - reflexivity.
  - exists infl, noms. repeat split; assumption.
Defined.

Lemma union_index_NoDup i1 i2 :
  NoDup i1 -> NoDup i2 ->
  NoDup (union_index i1 i2)
  /\ forall d, d ∈ union_index i1 i2 <-> d ∈ i1 \/ d ∈ i2.
Proof.
  intros N1 N2. unfold union_index.
  destruct (decide (i2 = [] \/ i1 = i2)) as [[->| ->]|_].
  - split; [exact N1|]. intros d. split; [tauto|]. intros [H|H]; [exact H|inversion H].
  - split; [exact N2|]. intros d. tauto.
  - destruct (decide (i1 = [])) as [->|_].
    + split; [exact N2|]. intros d. split; [tauto|]. intros [H|H]; [inversion H|exact H].
    + set (u := merge_sort ts_le (remove_dups (i1 ++ i2))).
      assert (Hperm : u ≡ₚ remove_dups (i1 ++ i2)) by apply merge_sort_Permutation.
      assert (Hmem : forall d, d ∈ u <-> d ∈ i1 \/ d ∈ i2).
      { intros d. rewrite Hperm, elem_of_remove_dups. apply elem_of_app. }
      assert (Hnd : NoDup u) by (rewrite Hperm; apply NoDup_remove_dups).
      rewrite flat_map_singletons; [split; assumption|].
      intros d Hd. apply Hmem in Hd.
      assert (E : Nat.max (count_label d i1) (count_label d i2) = 1%nat).
      { destruct (decide (d ∈ i1)) as [H1|H1]; destruct (decide (d ∈ i2)) as [H2|H2].
        - now rewrite !count_label_present.
        - now rewrite count_label_present, count_label_absent.
        - now rewrite count_label_absent, count_label_present.
        - tauto. }
      rewrite E. reflexivity.
Qed.

Lemma kept_rows_NoDup {A} (na : A -> bool) f g target :
  NoDup target -> NoDup (omap (kept_row na f g) target).*1.
Proof.
  induction 1 as [|k target Hk Hnd IH]; [constructor|].
  cbn [omap list_omap]. destruct (kept_row na f g k) as [row|] eqn:E; [|exact IH].
  apply kept_row_Some in E. destruct E as (E & _).
  cbn [fmap list_fmap]. rewrite E. constructor; [|exact IH].
  intros Hd. apply list_elem_of_fmap in Hd. destruct Hd as (row' & Hk' & Hrow).
  apply list_elem_of_omap in Hrow. destruct Hrow as (d' & Hd' & E').
  apply kept_row_Some in E'. destruct E' as (E' & _). apply Hk. congruence.
Qed.

(** X11. With at most one observation per month in each input, in any
    order, [align_data] does not raise: it returns a frame whose dates
    are distinct and which has a row for a date exactly when both inputs
    have a value that is not missing at it; so inputs with no month in
    common give an empty frame, not an error. *)
Theorem align_data_one_per_month (cpi_df : DataFrame) (returns_series : Series)
    (v : list float) :
  columns cpi_df !! "Inflation_Rate" = Some (NumCol v) ->
  length (index cpi_df) = length v ->
  length (s_index returns_series) = length (s_values returns_series) ->
  NoDup (map month_end (index cpi_df)) ->
  NoDup (map month_end (s_index returns_series)) ->
  exists combined,
    align_data cpi_df returns_series = Ok combined
    /\ NoDup (index combined)
    /\ (forall d, d ∈ index combined <->
          has_value (map month_end (index cpi_df)) v d
          /\ has_value (map month_end (s_index returns_series)) (s_values returns_series) d)
    /\ ((forall d, ~ (d ∈ map month_end (index cpi_df)
                      /\ d ∈ map month_end (s_index returns_series))) ->
        index combined = []).
Proof.
  intros Hc L1 L2 N1 N2.
  set (i1 := map month_end (index cpi_df)) in *.
  set (i2 := map month_end (s_index returns_series)) in *.
  set (r := s_values returns_series) in *.
  destruct (union_index_NoDup i1 i2 N1 N2) as [Nt Hmem].
  set (rows := omap (kept_row isna (at_label i1 v) (at_label i2 r)) (union_index i1 i2)).
  assert (Hrun : align_data cpi_df returns_series
                 = Ok {| index := rows.*1;
                         columns := {[ "Inflation_Rate" := NumCol (rows.*2.*1);
                                       "Nominal_Return" := NumCol (rows.*2.*2) ]} |}).
  { unfold align_data, getitem. rewrite Hc. cbn [bind]. fold i1 i2 r.
    rewrite (reindex_unique i1 v) by (try exact N1; unfold i1; rewrite length_map; exact L1).
    rewrite (reindex_unique i2 r) by (try exact N2; unfold i2; rewrite length_map; exact L2).
    cbn [bind]. rewrite dropna_rows_reindexed. reflexivity. }
  assert (Hiff : forall d, d ∈ rows.*1 <-> has_value i1 v d /\ has_value i2 r d).
  { intros d. split.
    - intros Hd. apply list_elem_of_fmap in Hd. destruct Hd as (row & -> & Hin).
      apply list_elem_of_omap in Hin. destruct Hin as (d & Hd & E).
      apply kept_row_Some in E. destruct E as (-> & Ha & Na & Hb & Nb).
      split; eexists; (split; [eassumption|]); unfold notna; [now rewrite Na|now rewrite Nb].
    - intros [(a & Ha & Na) (b & Hb & Nb)].
      apply list_elem_of_fmap. exists (d, (a, b)). split; [reflexivity|].
      apply list_elem_of_omap. exists d. split.
      + apply Hmem. left. eapply at_label_elem_of. exact Ha.
      + apply kept_row_Some. cbn [fst snd]. unfold notna in *.
        destruct (isna a); [discriminate|]. destruct (isna b); [discriminate|]. tauto. }
  eexists. split; [exact Hrun|]. cbn [index].
  split; [apply kept_rows_NoDup; exact Nt|]. split; [exact Hiff|].
  intros Hdisj. destruct (rows.*1) as [|d rest] eqn:E; [reflexivity|exfalso].
  assert (Hd : d ∈ d :: rest) by apply list_elem_of_here.
  apply Hiff in Hd. destruct Hd as [(a & Ha & _) (b & Hb & _)].
  apply (Hdisj d). split; eapply at_label_elem_of; eassumption.
Qed.

Lemma align_data_one_per_month_witness :
  exists combined,
    align_data monthly_cpi monthly_returns = Ok combined /\ NoDup (index combined).
Proof.
  destruct (align_data_one_per_month monthly_cpi monthly_returns [Fin 0.025; Fin 0.023; NaN])
    as (combined & Hrun & Hnd & _).
  - reflexivity.
  - reflexivity.
  - reflexivity.
  - apply (StronglySorted_ts_lt_NoDup _). repeat (constructor; try reflexivity).
  - apply (StronglySorted_ts_lt_NoDup _). repeat (constructor; try reflexivity).
  - exists combined. split; assumption.
Defined.

(** ** A file that loads *)

Lemma sort_rows_sorted {A} (idx : list Timestamp) (vals : list A) :
  Sorted ts_le (sort_rows idx vals).*1
  /\ sort_rows idx vals ≡ₚ zip idx vals.
Proof.
  unfold sort_rows. split; [|apply merge_sort_Permutation].
  apply (Sorted_fmap fst (fun p q : Timestamp * A => ts_le p.1 q.1) ts_le).
  - intros p q H. exact H.
  - apply Sorted_merge_sort. intros p q. apply ts_le_total.
Qed.

(** X12. When the Year, Month and Day columns are there, pandas assembles
    them into dates and the Actual column is numeric, [load_cpi] returns
    a frame whose only column is Inflation_Rate, whose dates are in
    chronological order, and whose rows are the rows of the file, each
    value still next to its date. *)
Theorem load_cpi_sorted
    (to_datetime : raw_column -> raw_column -> raw_column -> option (list Timestamp))
    (df : RawFrame) (y m d actual : raw_column) (dates : list Timestamp) (v : list float) :
  df !! "Year" = Some y -> df !! "Month" = Some m -> df !! "Day" = Some d ->
  to_datetime y m d = Some dates ->
  df !! "Actual" = Some actual ->
  to_column actual = NumCol v ->
  exists frame vals,
    load_cpi to_datetime df = Ok frame
    /\ columns frame = {[ "Inflation_Rate" := NumCol vals ]}
    /\ length (index frame) = length vals
    /\ Sorted ts_le (index frame)
    /\ zip (index frame) vals ≡ₚ zip dates v.
Proof.
  intros Hy Hm Hd Hdates Ha Hv. unfold load_cpi, raw_getitem.
  rewrite Hy, Hm, Hd. cbn [bind]. rewrite Hdates. cbn [bind].
  rewrite lookup_delete_ne by discriminate. rewrite Ha. cbn [bind]. rewrite Hv.
  unfold sort_index. do 2 eexists. split; [reflexivity|]. cbn [index columns].
  split; [reflexivity|]. split; [now rewrite !length_fmap|].
  destruct (sort_rows_sorted dates v) as [Hs Hp].
  split; [exact Hs|]. rewrite zip_fst_snd. exact Hp.
Qed.

Lemma load_cpi_sorted_witness :
  exists frame vals,
    load_cpi calendar_to_datetime
      {[ "Year" := IntCol [2020; 2020]%Z; "Month" := IntCol [2; 1]%Z;
         "Day" := IntCol [13; 14]%Z; "Actual" := FloatCol [Fin 0.023; Fin 0.025] ]}
    = Ok frame
    /\ columns frame = {[ "Inflation_Rate" := NumCol vals ]}
    /\ Sorted ts_le (index frame).
Proof.
  destruct (load_cpi_sorted calendar_to_datetime
              {[ "Year" := IntCol [2020; 2020]%Z; "Month" := IntCol [2; 1]%Z;
                 "Day" := IntCol [13; 14]%Z; "Actual" := FloatCol [Fin 0.023; Fin 0.025] ]}
              (IntCol [2020; 2020]%Z) (IntCol [2; 1]%Z) (IntCol [13; 14]%Z)
              (FloatCol [Fin 0.023; Fin 0.025])
              [mkTimestamp 2020 2 13; mkTimestamp 2020 1 14] [Fin 0.023; Fin 0.025])
    as (frame & vals & Hrun & Hc & _ & Hs & _); try reflexivity.
  exists frame, vals. repeat split; assumption.
Defined.

(** ** Rolling correlation: shape, short windows, order of the columns *)

Lemma rolling_corr_length w a b :
  length (rolling_corr w a b) = Nat.min (length a) (length b).
Proof.
  unfold rolling_corr, prep_values, prep_binary. cbn [fst].
  now rewrite !length_map, length_seq, length_zip_with.
Qed.

Lemma roll_var_short w v i : (w <= 1)%nat -> roll_var w w 1 v i = NaN.
Proof.
  intros Hw. unfold roll_var.
  pose proof (valid_length_le (window w i v)) as L1.
  pose proof (window_length_le w i v) as L2.
  destruct (1 <? length (valid (window w i v)))%nat eqn:E;
    [apply Nat.ltb_lt in E; lia|].
  now rewrite andb_false_r.
Qed.

Lemma rolling_corr_at_short w x y i : (w <= 1)%nat -> rolling_corr_at w x y i = NaN.
Proof.
  intros Hw. unfold rolling_corr_at. rewrite (roll_var_short w x i Hw).
  cbn [fmul fpow_half fsqrt]. apply fdiv_NaN_r.
Qed.

(** X13. On a well-formed frame with two numeric columns and a window
    that is not negative, [calculate_rolling_correlation] returns a
    series on the frame's own dates with one value per row; and with a
    window of 0 or 1 every one of these values is undefined. *)
Theorem calculate_rolling_correlation_shape (df : DataFrame) (col1 col2 : string)
    (w : Z) (v1 v2 : list float) :
  wf_frame df ->
  columns df !! col1 = Some (NumCol v1) ->
  columns df !! col2 = Some (NumCol v2) ->
  (0 <= w)%Z ->
  exists s,
    calculate_rolling_correlation df col1 col2 w = Ok s
    /\ s_index s = index df
    /\ length (s_values s) = length (index df)
    /\ ((w <= 1)%Z -> Forall (fun a => a = NaN) (s_values s)).
Proof.
  intros Hwf H1 H2 Hw. unfold calculate_rolling_correlation, getitem.
  rewrite H1, H2. cbn [bind].
  destruct (w <? 0)%Z eqn:E; [apply Z.ltb_lt in E; lia|]. cbn [bind numeric].
  eexists. split; [reflexivity|]. cbn [s_index s_values].
  split; [reflexivity|]. split.
  - rewrite rolling_corr_length.
    pose proof (Hwf _ _ H1) as L1. pose proof (Hwf _ _ H2) as L2.
    cbn [col_length] in L1, L2. lia.
  - intros Hw1. apply Forall_forall. intros a Ha.
    apply list_elem_of_lookup in Ha. destruct Ha as [i Hi].
    apply rolling_corr_lookup_inv in Hi. subst a.
    apply rolling_corr_at_short. lia.
Qed.

Lemma calculate_rolling_correlation_shape_witness :
  exists s,
    calculate_rolling_correlation moving_frame "Inflation_Rate" "Nominal_Return" 1 = Ok s
    /\ length (s_values s) = 3%nat
    /\ Forall (fun a => a = NaN) (s_values s).
Proof.
  destruct (calculate_rolling_correlation_shape moving_frame
              "Inflation_Rate" "Nominal_Return" 1
              [Fin 0.02; Fin 0.03; Fin 0.04] [Fin 0.01; Fin (-0.01); Fin 0.02])
    as (s & Hrun & _ & Hlen & Hnan).
  - intros c col Hc. unfold moving_frame in Hc. cbn [columns index] in *.
    apply lookup_insert_Some in Hc. destruct Hc as [[_ <-]|[_ Hc]]; [reflexivity|].
    apply lookup_singleton_Some in Hc. destruct Hc as [_ <-]. reflexivity.
  - reflexivity.
  - reflexivity.
  - lia.
  - exists s. split; [exact Hrun|]. split; [exact Hlen|]. apply Hnan. lia.
Defined.

(** X14. The errors of [calculate_rolling_correlation] come in the order
    of the call: a missing first column raises KeyError whatever the
    window; with the first column there, a negative window raises
    ValueError before the second column is looked at. *)
Theorem calculate_rolling_correlation_errors (df : DataFrame) (col1 col2 : string) (w : Z) :
  (columns df !! col1 = None ->
   calculate_rolling_correlation df col1 col2 w = Raise (KeyError col1))
  /\ (forall c1, columns df !! col1 = Some c1 -> (w < 0)%Z ->
        exists msg, calculate_rolling_correlation df col1 col2 w = Raise (ValueError msg))
  /\ (forall c1, columns df !! col1 = Some c1 -> (0 <= w)%Z ->
        columns df !! col2 = None ->
        calculate_rolling_correlation df col1 col2 w = Raise (KeyError col2)).
Proof.
  unfold calculate_rolling_correlation, getitem. split; [|split].
  - intros ->. reflexivity.
  - intros c1 -> Hw. cbn [bind].
    destruct (w <? 0)%Z eqn:E; [|apply Z.ltb_ge in E; lia]. eexists. reflexivity.
  - intros c1 -> Hw ->. cbn [bind].
    destruct (w <? 0)%Z eqn:E; [apply Z.ltb_lt in E; lia|]. reflexivity.
Qed.

Lemma calculate_rolling_correlation_errors_witness :
  calculate_rolling_correlation moving_frame "Real_Return" "Nominal_Return" (-1)
  = Raise (KeyError "Real_Return")
  /\ (exists msg,
        calculate_rolling_correlation moving_frame "Inflation_Rate" "Real_Return" (-1)
        = Raise (ValueError msg))
  /\ calculate_rolling_correlation moving_frame "Inflation_Rate" "Real_Return" 60
     = Raise (KeyError "Real_Return").
Proof.
  split; [|split].
  - apply (proj1 (calculate_rolling_correlation_errors moving_frame
                    "Real_Return" "Nominal_Return" (-1))). reflexivity.
  - apply (proj1 (proj2 (calculate_rolling_correlation_errors moving_frame
                           "Inflation_Rate" "Real_Return" (-1)))
             (NumCol [Fin 0.02; Fin 0.03; Fin 0.04])); [reflexivity|lia].
  - apply (proj2 (proj2 (calculate_rolling_correlation_errors moving_frame
                           "Inflation_Rate" "Real_Return" 60))
             (NumCol [Fin 0.02; Fin 0.03; Fin 0.04])); [reflexivity|lia|reflexivity].
Defined.

Lemma fadd_comm a b : fadd a b = fadd b a.
Proof. destruct a, b; try reflexivity. simpl. f_equal. ring. Qed.

Lemma fmul_comm a b : fmul a b = fmul b a.
Proof. destruct a, b; try reflexivity. simpl. f_equal. ring. Qed.

Lemma zip_with_comm (f : float -> float -> float) :
  (forall a b, f a b = f b a) -> forall x y, zip_with f x y = zip_with f y x.
Proof.
  intros Hf. induction x as [|a x IH]; intros [|b y]; simpl; try reflexivity.
  now rewrite Hf, IH.
Qed.

Lemma prep_binary_swap a b :
  (prep_binary b a).1 = (prep_binary a b).2 /\ (prep_binary b a).2 = (prep_binary a b).1.
Proof.
  unfold prep_binary. cbn [fst snd]. split.
  - revert b. induction a as [|x a IH]; intros [|y b]; simpl; try reflexivity.
    now rewrite IH.
  - revert b. induction a as [|x a IH]; intros [|y b]; simpl; try reflexivity.
    now rewrite IH.
Qed.

Lemma rolling_corr_at_comm w x y i : rolling_corr_at w x y i = rolling_corr_at w y x i.
Proof.
  unfold rolling_corr_at.
  rewrite (zip_with_comm fmul fmul_comm x y), (zip_with_comm fadd fadd_comm x y).
  rewrite (fmul_comm (roll_mean w w x i)), (fmul_comm (roll_var w w 1 x i)).
  reflexivity.
Qed.

(** X15. The rolling correlation does not depend on the order in which
    the two columns are named: with both columns numeric, swapping them
    gives the same result. *)
Theorem calculate_rolling_correlation_symmetric (df : DataFrame) (col1 col2 : string)
    (w : Z) (v1 v2 : list float) :
  columns df !! col1 = Some (NumCol v1) ->
  columns df !! col2 = Some (NumCol v2) ->
  calculate_rolling_correlation df col1 col2 w
  = calculate_rolling_correlation df col2 col1 w.
Proof.
  intros H1 H2. unfold calculate_rolling_correlation, getitem.
  rewrite H1, H2. cbn [bind]. destruct (w <? 0)%Z; [reflexivity|]. cbn [bind numeric].
  do 2 f_equal. unfold rolling_corr.
  destruct (prep_binary_swap v1 v2) as [E1 E2]. rewrite E1, E2.
  assert (L : length (prep_values (prep_binary v1 v2).2)
              = length (prep_values (prep_binary v1 v2).1)).
  { unfold prep_values, prep_binary. cbn [fst snd].
    now rewrite !length_map, !length_zip_with. }
  rewrite L. apply map_ext. intros i. apply rolling_corr_at_comm.
Qed.

Lemma calculate_rolling_correlation_symmetric_witness :
  calculate_rolling_correlation moving_frame "Inflation_Rate" "Nominal_Return" 2
  = calculate_rolling_correlation moving_frame "Nominal_Return" "Inflation_Rate" 2.
Proof.
  apply (calculate_rolling_correlation_symmetric moving_frame
           "Inflation_Rate" "Nominal_Return" 2
           [Fin 0.02; Fin 0.03; Fin 0.04] [Fin 0.01; Fin (-0.01); Fin 0.02]);
    reflexivity.
Defined.

(** ** Annualized metrics: missing values and short series *)

Lemma valid_idempotent v : valid (valid v) = valid v.
Proof.
  unfold valid. induction v as [|a v IH]; [reflexivity|].
  destruct (notna a) eqn:E.
  - rewrite !filter_cons_True by exact E. now rewrite IH.
  - rewrite filter_cons_False by (rewrite E; discriminate). exact IH.
Qed.

Lemma dropna_values idx : forall vals,
  length idx = length vals ->
  s_values (dropna {| s_index := idx; s_values := vals |}) = valid vals.
Proof.
  unfold dropna, valid. cbn [s_index s_values].
  induction idx as [|d idx IH]; intros [|a vals] Hlen; try discriminate; [reflexivity|].
  cbn [zip zip_with]. destruct (notna a) eqn:E.
  - rewrite filter_cons_True by exact E. rewrite filter_cons_True by exact E.
    cbn [fmap list_fmap snd]. f_equal. apply IH. simpl in Hlen. lia.
  - rewrite filter_cons_False by (cbn [snd]; rewrite E; discriminate).
    rewrite filter_cons_False by (rewrite E; discriminate).
    apply IH. simpl in Hlen. lia.
Qed.

(** X16. The metrics of a series are the metrics of its observations that
    are not missing: dropping the missing values first, as
    [calculate_returns] does, changes none of the three. *)
Theorem calculate_annualized_metrics_skips_missing (returns_series : Series) :
  length (s_index returns_series) = length (s_values returns_series) ->
  calculate_annualized_metrics (dropna returns_series)
  = calculate_annualized_metrics returns_series.
Proof.
  intros Hlen. destruct returns_series as [idx vals]. cbn [s_index s_values] in Hlen.
  unfold calculate_annualized_metrics. rewrite (dropna_values idx vals Hlen).
  cbn [s_values]. unfold mean, std. rewrite valid_idempotent. reflexivity.
Qed.

Lemma calculate_annualized_metrics_skips_missing_witness :
  calculate_annualized_metrics
    (dropna {| s_index := [jan2020; feb2020; mar2020];
               s_values := [NaN; Fin 0.01; Fin 0.03] |})
  = calculate_annualized_metrics
      {| s_index := [jan2020; feb2020; mar2020]; s_values := [NaN; Fin 0.01; Fin 0.03] |}.
Proof. apply calculate_annualized_metrics_skips_missing. reflexivity. Defined.

(** X17. With fewer than two observations that are not missing, the
    annualized volatility and the Sharpe ratio are undefined; with none at
    all, an empty series included, so is the annualized return.  Nothing
    raises. *)
Theorem calculate_annualized_metrics_short (returns_series : Series) :
  (length (valid (s_values returns_series)) <= 1)%nat ->
  calculate_annualized_metrics returns_series !! "Annualized_Volatility" = Some NaN
  /\ calculate_annualized_metrics returns_series !! "Sharpe_Ratio" = Some NaN
  /\ (valid (s_values returns_series) = [] ->
      calculate_annualized_metrics returns_series !! "Annualized_Return" = Some NaN).
Proof.
  intros Hn. set (v := s_values returns_series) in *.
  assert (Hstd : std v = NaN).
  { unfold std. destruct (length (valid v) <=? 1)%nat eqn:E; [reflexivity|].
    apply Nat.leb_gt in E. lia. }
  assert (Hvol : fmul (std v) (fsqrt (Fin 12)) = NaN) by now rewrite Hstd.
  split; [|split].
  - change (calculate_annualized_metrics returns_series !! "Annualized_Volatility")
      with (Some (fmul (std v) (fsqrt (Fin 12)))). now rewrite Hvol.
  - change (calculate_annualized_metrics returns_series !! "Sharpe_Ratio")
      with (Some (if fneb (fmul (std v) (fsqrt (Fin 12))) (Fin 0)
                  then fdiv (fsub (fpow (fadd (Fin 1) (mean v)) 12) (Fin 1))
                            (fmul (std v) (fsqrt (Fin 12)))
                  else Fin 0)).
    rewrite Hvol. cbn [fneb]. now rewrite fdiv_NaN_r.
  - intros He.
    change (calculate_annualized_metrics returns_series !! "Annualized_Return")
      with (Some (fsub (fpow (fadd (Fin 1) (mean v)) 12) (Fin 1))).
    assert (Hmean : mean v = NaN).
    { unfold mean. rewrite He. unfold fsum, of_nat. simpl. float_eval. reflexivity. }
    rewrite Hmean. reflexivity.
Qed.

Lemma calculate_annualized_metrics_short_witness :
  calculate_annualized_metrics {| s_index := []; s_values := [] |} !! "Annualized_Volatility"
  = Some NaN
  /\ calculate_annualized_metrics {| s_index := []; s_values := [] |} !! "Sharpe_Ratio"
     = Some NaN
  /\ calculate_annualized_metrics {| s_index := []; s_values := [] |} !! "Annualized_Return"
     = Some NaN.
Proof.
  destruct (calculate_annualized_metrics_short {| s_index := []; s_values := [] |})
    as (H1 & H2 & H3); [simpl; lia|].
  split; [exact H1|]. split; [exact H2|]. apply H3. reflexivity.
Defined.

Lemma fsqrt_cases a :
  fsqrt a = NaN \/ fsqrt a = PInf \/ exists x, fsqrt a = Fin x /\ 0 <= x.
Proof.
  destruct a as [| | |x]; simpl; auto.
  destruct (Rlt_dec x 0); [auto|]. right. right. eexists. split; [reflexivity|].
  apply sqrt_pos.
Qed.

(** X18. The annualized volatility is never negative: it is undefined,
    plus infinity, or a number that is at least 0. *)
Theorem annualized_volatility_not_negative (returns_series : Series) :
  calculate_annualized_metrics returns_series !! "Annualized_Volatility" = Some NaN
  \/ calculate_annualized_metrics returns_series !! "Annualized_Volatility" = Some PInf
  \/ exists x,
       calculate_annualized_metrics returns_series !! "Annualized_Volatility" = Some (Fin x)
       /\ 0 <= x.
Proof.
  set (v := s_values returns_series).
  change (calculate_annualized_metrics returns_series !! "Annualized_Volatility")
    with (Some (fmul (std v) (fsqrt (Fin 12)))).
  rewrite (fsqrt_finite 12) by lra.
  assert (H12 : 0 < sqrt 12) by (apply sqrt_lt_R0; lra).
  assert (Hstd : std v = NaN \/ std v = PInf \/ exists x, std v = Fin x /\ 0 <= x).
  { unfold std. destruct (length (valid v) <=? 1)%nat; [left; reflexivity|].
    apply fsqrt_cases. }
  destruct Hstd as [->|[->|(x & -> & Hx)]].
  - left. reflexivity.
  - right. left. cbn [fmul]. unfold sign_of.
    destruct (Req_dec_T (sqrt 12) 0); [lra|]. destruct (Rlt_dec 0 (sqrt 12)); [reflexivity|lra].
  - right. right. eexists. split; [reflexivity|]. apply Rmult_le_pos; lra.
Qed.

(** ** Monthly prices *)

Lemma end_of_month_lt k k' : (k < k')%Z -> ts_lt (end_of_month k) (end_of_month k').
Proof.
  intros H. unfold ts_lt, ts_ltb, end_of_month. cbn [year month day].
  pose proof (Z.div_mod k 12 ltac:(lia)). pose proof (Z.div_mod k' 12 ltac:(lia)).
  pose proof (Z.mod_pos_bound k 12 ltac:(lia)).
  pose proof (Z.mod_pos_bound k' 12 ltac:(lia)).
  destruct (Z.lt_trichotomy (k / 12) (k' / 12)) as [Hlt|[Heq|Hgt]].
  - apply Z.ltb_lt in Hlt. now rewrite Hlt.
  - apply orb_true_iff. right. apply andb_true_iff. split; [now apply Z.eqb_eq|].
    apply orb_true_iff. left. apply Z.ltb_lt. lia.
  - lia.
Qed.

Lemma month_ord_end_of_month k : month_ord (end_of_month k) = k.
Proof.
  unfold month_ord, end_of_month. cbn [year month].
  pose proof (Z.div_mod k 12 ltac:(lia)). lia.
Qed.

Lemma end_of_month_month_ord t :
  (1 <= month t <= 12)%Z -> end_of_month (month_ord t) = month_end t.
Proof.
  intros Hm. unfold end_of_month, month_ord, month_end.
  assert (Hq : ((year t * 12 + (month t - 1)) / 12 = year t)%Z).
  { symmetry. apply (Z.div_unique _ 12 (year t) (month t - 1)); lia. }
  assert (Hr : ((year t * 12 + (month t - 1)) mod 12 = month t - 1)%Z).
  { symmetry. apply (Z.mod_unique _ 12 (year t) (month t - 1)); lia. }
  rewrite Hq, Hr. replace (month t - 1 + 1)%Z with (month t) by lia. reflexivity.
Qed.

Lemma foldr_min_bounds a l :
  (foldr Z.min a l <= a)%Z /\ Forall (fun x => (foldr Z.min a l <= x)%Z) l.
Proof.
  induction l as [|x l [IH1 IH2]]; simpl; [split; [lia|constructor]|].
  split; [lia|]. constructor; [lia|].
  eapply Forall_impl; [exact IH2|]. intros y Hy. simpl in Hy. lia.
Qed.

Lemma foldr_max_bounds a l :
  (a <= foldr Z.max a l)%Z /\ Forall (fun x => (x <= foldr Z.max a l)%Z) l.
Proof.
  induction l as [|x l [IH1 IH2]]; simpl; [split; [lia|constructor]|].
  split; [lia|]. constructor; [lia|].
  eapply Forall_impl; [exact IH2|]. intros y Hy. simpl in Hy. lia.
Qed.

Lemma months_cover idx d : d ∈ idx -> month_ord d ∈ months idx.
Proof.
  intros Hd. destruct idx as [|d0 rest]; [inversion Hd|].
  unfold months. apply elem_of_seqZ.
  destruct (foldr_min_bounds (month_ord d0) (map month_ord rest)) as [L1 L2].
  destruct (foldr_max_bounds (month_ord d0) (map month_ord rest)) as [U1 U2].
  apply elem_of_cons in Hd. destruct Hd as [->|Hd]; [lia|].
  rewrite Forall_forall in L2, U2.
  assert (Hin : month_ord d ∈ map month_ord rest) by now apply list_elem_of_fmap_2.
  specialize (L2 _ Hin). specialize (U2 _ Hin). simpl in L2, U2. lia.
Qed.

Lemma seq_strictly_sorted a n : StronglySorted lt (seq a n).
Proof.
  revert a. induction n as [|n IH]; intros a; [constructor|].
  cbn [seq]. constructor; [apply IH|].
  apply Forall_forall. intros k Hk. apply elem_of_seq in Hk. lia.
Qed.

Lemma months_sorted idx : StronglySorted ts_lt (map end_of_month (months idx)).
Proof.
  destruct idx as [|d rest]; [constructor|]. unfold months, seqZ.
  apply (StronglySorted_fmap end_of_month Z.lt ts_lt); [exact end_of_month_lt|].
  apply (StronglySorted_fmap _ lt Z.lt); [intros; lia|].
  apply seq_strictly_sorted.
Qed.

Lemma resample_last_index idx vals :
  (resample_last idx vals).*1 = map end_of_month (months idx).
Proof. unfold resample_last. rewrite <- list_fmap_compose. reflexivity. Qed.

Lemma months_within idx k :
  k ∈ months idx ->
  exists d1 d2, d1 ∈ idx /\ d2 ∈ idx /\ (month_ord d1 <= k <= month_ord d2)%Z.
Proof.
  destruct idx as [|d0 rest]; [intros H; inversion H|].
  unfold months. intros Hk. apply elem_of_seqZ in Hk.
  assert (Hlo : exists d1, d1 ∈ d0 :: rest
                  /\ month_ord d1 = foldr Z.min (month_ord d0) (map month_ord rest)).
  { clear. induction rest as [|d rest (d1 & Hin & E)].
    - exists d0. split; [apply list_elem_of_here|reflexivity].
    - cbn [map foldr]. destruct (Z.min_spec (month_ord d)
        (foldr Z.min (month_ord d0) (map month_ord rest))) as [[_ ->]|[_ ->]].
      + exists d. split; [apply list_elem_of_further, list_elem_of_here|reflexivity].
      + exists d1. split; [|exact E].
        apply elem_of_cons in Hin. destruct Hin as [->|Hin];
          [apply list_elem_of_here|do 2 apply list_elem_of_further; exact Hin]. }
  assert (Hhi : exists d2, d2 ∈ d0 :: rest
                  /\ month_ord d2 = foldr Z.max (month_ord d0) (map month_ord rest)).
  { clear. induction rest as [|d rest (d2 & Hin & E)].
    - exists d0. split; [apply list_elem_of_here|reflexivity].
    - cbn [map foldr]. destruct (Z.max_spec (month_ord d)
        (foldr Z.max (month_ord d0) (map month_ord rest))) as [[_ ->]|[_ ->]].
      + exists d2. split; [|exact E].
        apply elem_of_cons in Hin. destruct Hin as [->|Hin];
          [apply list_elem_of_here|do 2 apply list_elem_of_further; exact Hin].
      + exists d. split; [apply list_elem_of_further, list_elem_of_here|reflexivity]. }
  destruct Hlo as (d1 & H1 & E1). destruct Hhi as (d2 & H2 & E2).
  exists d1, d2. split; [exact H1|]. split; [exact H2|]. lia.
Qed.

(** X19. On a numeric price column [resample_to_monthly] returns one row
    per calendar month from the first to the last month of the data and
    no other row: the dates of the result are month ends, strictly
    increasing, each one the month after the one before it; the month of
    every input date is among them; every one of them lies between the
    months of two input dates, so that there is no row before the earliest
    month of the data, none after the latest and none for an empty frame;
    and the single column kept has one value per row. *)
Theorem resample_to_monthly_index (df : DataFrame) (price_col : string) (p : list float) :
  columns df !! price_col = Some (NumCol p) ->
  exists monthly vals,
    resample_to_monthly df price_col = Ok monthly
    /\ columns monthly = {[ price_col := NumCol vals ]}
    /\ length vals = length (index monthly)
    /\ StronglySorted ts_lt (index monthly)
    /\ Forall (fun d => month_end d = d) (index monthly)
    /\ (forall i a b, index monthly !! i = Some a -> index monthly !! S i = Some b ->
          month_ord b = (month_ord a + 1)%Z)
    /\ (forall d, d ∈ index df -> (1 <= month d <= 12)%Z -> month_end d ∈ index monthly)
    /\ (forall d, d ∈ index monthly ->
          exists d1 d2, d1 ∈ index df /\ d2 ∈ index df
            /\ (month_ord d1 <= month_ord d <= month_ord d2)%Z)
    /\ (index df = [] -> index monthly = []).
Proof.
  intros Hc. unfold resample_to_monthly, getitem. rewrite Hc. cbn [bind numeric].
  do 2 eexists. split; [reflexivity|]. cbn [index columns].
  split; [reflexivity|]. split; [now rewrite !length_fmap|].
  rewrite resample_last_index.
  split; [apply months_sorted|]. split; [|split; [|split; [|split]]].
  - apply Forall_forall. intros d Hd. apply list_elem_of_fmap in Hd.
    destruct Hd as (k & -> & _). reflexivity.
  - intros i a b Ha Hb.
    apply list_lookup_fmap_Some in Ha. destruct Ha as (ka & -> & Ha).
    apply list_lookup_fmap_Some in Hb. destruct Hb as (kb & -> & Hb).
    rewrite !month_ord_end_of_month.
    destruct (index df) as [|d0 rest]; [discriminate Ha|]. unfold months in Ha, Hb.
    apply lookup_seqZ in Ha. apply lookup_seqZ in Hb. lia.
  - intros d Hd Hm. rewrite <- (end_of_month_month_ord d Hm).
    apply list_elem_of_fmap_2. now apply months_cover.
  - intros d Hd. apply list_elem_of_fmap in Hd. destruct Hd as (k & -> & Hk).
    rewrite month_ord_end_of_month. now apply months_within.
  - intros ->. reflexivity.
Qed.

Lemma resample_to_monthly_index_witness :
  exists monthly,
    resample_to_monthly daily_prices "close" = Ok monthly
    /\ StronglySorted ts_lt (index monthly)
    /\ (jan2020 ∈ index monthly)
    /\ exists d1 d2, d1 ∈ index daily_prices /\ d2 ∈ index daily_prices
         /\ (month_ord d1 <= month_ord jan2020 <= month_ord d2)%Z.
Proof.
  destruct (resample_to_monthly_index daily_prices "close"
              [Fin 100; Fin 101; Fin 102; NaN; Fin 99])
    as (monthly & vals & Hrun & _ & _ & Hs & _ & _ & Hcov & Hin & _); [reflexivity|].
  assert (Hjan : jan2020 ∈ index monthly).
  { apply (Hcov (mkTimestamp 2020 1 2)).
    - do 2 apply list_elem_of_further. apply list_elem_of_here.
    - cbn [month]. lia. }
  exists monthly. split; [exact Hrun|]. split; [exact Hs|]. split; [exact Hjan|].
  exact (Hin jan2020 Hjan).
Defined.

Lemma foldl_later_row_None l c : foldl later_row c l = None -> c = None /\ l = [].
Proof.
  revert c. induction l as [|a l IH]; intros c H; [simpl in H; tauto|].
  simpl in H. apply IH in H. destruct H as [H _].
  destruct c as [c0|]; simpl in H; [destruct (decide (ts_le c0.1 a.1))|]; discriminate H.
Qed.

Lemma foldl_later_row_Some l : forall c r,
  foldl later_row c l = Some r ->
  (Some r = c \/ r ∈ l)
  /\ (forall x, c = Some x -> ts_le x.1 r.1)
  /\ (forall x, x ∈ l -> ts_le x.1 r.1).
Proof.
  induction l as [|a l IH]; intros c r H.
  - simpl in H. subst c. split; [left; reflexivity|]. split.
    + intros x Hx. injection Hx as ->. unfold ts_le. apply ts_ltb_irrefl.
    + intros x Hx. inversion Hx.
  - simpl in H. destruct (IH _ _ H) as (Hin & Hc & Hl).
    assert (Ha : ts_le a.1 r.1 /\ forall x, c = Some x -> ts_le x.1 r.1).
    { destruct c as [c0|]; simpl in Hc.
      - destruct (decide (ts_le c0.1 a.1)) as [Hle|Hnle].
        + split; [apply Hc; reflexivity|].
          intros x Hx. injection Hx as <-.
          eapply ts_le_trans; [exact Hle|]. apply Hc. reflexivity.
        + assert (Hle : ts_le a.1 c0.1).
          { destruct (ts_le_total a.1 c0.1); [assumption|contradiction]. }
          split.
          * eapply ts_le_trans; [exact Hle|]. apply Hc. reflexivity.
          * intros x Hx. injection Hx as <-. apply Hc. reflexivity.
      - split; [apply Hc; reflexivity|]. intros x Hx. discriminate Hx. }
    destruct Ha as [Ha Hc']. split; [|split].
    + destruct Hin as [Hin|Hin]; [|right; now apply list_elem_of_further].
      destruct c as [c0|]; simpl in Hin.
      * destruct (decide (ts_le c0.1 a.1)); injection Hin as ->;
          [right; apply list_elem_of_here|left; reflexivity].
      * injection Hin as ->. right. apply list_elem_of_here.
    + exact Hc'.
    + intros x Hx. apply elem_of_cons in Hx. destruct Hx as [->|Hx]; [exact Ha|now apply Hl].
Qed.

(** X20. The monthly price [resample_to_monthly] reports for a month is
    the price of the latest date of that month at which the price is not
    missing; it is missing exactly when every price of the month is
    missing or the month has no row. *)
Theorem resample_to_monthly_last (df : DataFrame) (price_col : string) (p : list float)
    (monthly : DataFrame) (vals : list float) :
  columns df !! price_col = Some (NumCol p) ->
  resample_to_monthly df price_col = Ok monthly ->
  columns monthly !! price_col = Some (NumCol vals) ->
  forall i d x,
    index monthly !! i = Some d -> vals !! i = Some x ->
    (notna x = true
     /\ exists d0,
          (d0, x) ∈ zip (index df) p
          /\ month_ord d0 = month_ord d
          /\ forall d' x', (d', x') ∈ zip (index df) p ->
               month_ord d' = month_ord d -> notna x' = true -> ts_le d' d0)
    \/ (x = NaN
        /\ forall d' x', (d', x') ∈ zip (index df) p ->
             month_ord d' = month_ord d -> x' = NaN).
Proof.
  intros Hc. unfold resample_to_monthly, getitem. rewrite Hc. cbn [bind numeric].
  intros Hrun Hv. injection Hrun as <-. cbn [index columns] in *.
  rewrite lookup_singleton_eq in Hv. injection Hv as <-.
  intros i d x Hd Hx.
  rewrite list_lookup_fmap in Hd. rewrite list_lookup_fmap in Hx.
  destruct (resample_last (index df) p !! i) as [row|] eqn:Hrow; [|discriminate].
  cbn in Hd, Hx. injection Hd as <-. injection Hx as <-.
  unfold resample_last in Hrow. apply list_lookup_fmap_Some in Hrow.
  destruct Hrow as (k & -> & _). cbn [fst snd]. rewrite month_ord_end_of_month.
  unfold last_in_month.
  set (rows := zip (index df) p).
  set (P := fun r : Timestamp * float => month_ord r.1 = k /\ notna r.2 = true).
  destruct (foldl later_row None (filter P rows)) as [r|] eqn:E.
  - left. apply foldl_later_row_Some in E. destruct E as ([E|E] & _ & Hmax); [discriminate|].
    apply list_elem_of_filter in E. destruct E as [[Hk Hn] Hin].
    split; [exact Hn|]. exists r.1. split; [now destruct r|]. split; [exact Hk|].
    intros d' x' Hin' Hk' Hn'.
    apply (Hmax (d', x')). apply list_elem_of_filter. split; [split; assumption|exact Hin'].
  - right. split; [reflexivity|]. apply foldl_later_row_None in E. destruct E as [_ E].
    intros d' x' Hin' Hk'. destruct (notna x') eqn:Hn; [exfalso|now destruct x'].
    assert (Hf : (d', x') ∈ filter P rows).
    { apply list_elem_of_filter. split; [split; [exact Hk'|exact Hn]|exact Hin']. }
    rewrite E in Hf. inversion Hf.
Qed.

Lemma resample_to_monthly_last_witness :
  exists d0,
    (d0, Fin 102) ∈ zip (index daily_prices) [Fin 100; Fin 101; Fin 102; NaN; Fin 99]
    /\ month_ord d0 = month_ord jan2020.
Proof.
  destruct (resample_to_monthly_last daily_prices "close"
              [Fin 100; Fin 101; Fin 102; NaN; Fin 99]
              {| index := (resample_last (index daily_prices)
                             [Fin 100; Fin 101; Fin 102; NaN; Fin 99]).*1;
                 columns := {[ "close" :=
                     NumCol (resample_last (index daily_prices)
                               [Fin 100; Fin 101; Fin 102; NaN; Fin 99]).*2 ]} |}
              _ eq_refl eq_refl (lookup_singleton_eq _ _) 1%nat jan2020 (Fin 102))
    as [(_ & d0 & Hin & Hk & _)|[Hx _]].
  - reflexivity.
  - reflexivity.
  - exists d0. split; assumption.
  - discriminate Hx.
Defined.

Lemma dropna_index_sublist (R : relation Timestamp) (P : Timestamp -> Prop) idx : forall vals,
  StronglySorted R idx -> Forall P idx ->
  StronglySorted R (s_index (dropna {| s_index := idx; s_values := vals |}))
  /\ Forall P (s_index (dropna {| s_index := idx; s_values := vals |})).
Proof.
  unfold dropna. cbn [s_index s_values].
  induction idx as [|d idx IH]; intros vals Hs Hp; [split; constructor|].
  destruct vals as [|a vals]; [split; constructor|].
  apply StronglySorted_inv in Hs. destruct Hs as [Hs Hd].
  inversion Hp as [|? ? Pd Hp']; subst.
  destruct (IH vals Hs Hp') as [IH1 IH2].
  cbn [zip zip_with]. destruct (notna a) eqn:E.
  - rewrite filter_cons_True by exact E. cbn [fmap list_fmap fst]. split.
    + constructor; [exact IH1|]. rewrite Forall_forall in *. intros d' Hd'.
      apply Hd. apply list_elem_of_fmap in Hd'. destruct Hd' as (row & -> & Hrow).
      apply list_elem_of_filter in Hrow. destruct Hrow as [_ Hrow].
      destruct row as [d1 a1]. eapply elem_of_zip_l. exact Hrow.
    + constructor; assumption.
  - rewrite filter_cons_False by (cbn [snd]; rewrite E; discriminate). split; assumption.
Qed.

Lemma map_month_end_fixed l : Forall (fun d => month_end d = d) l -> map month_end l = l.
Proof. induction 1 as [|d l Hd _ IH]; [reflexivity|]. simpl. now rewrite Hd, IH. Qed.

(** X21. Returns computed from resampled monthly prices have at most one
    date per month, in increasing order, and each date is a month end:
    they meet the condition on the returns under which [align_data] is
    shown to join correctly. *)
Theorem monthly_returns_dates (fm : fill_method) (df : DataFrame) (price_col : string)
    (monthly : DataFrame) (r : Series) :
  resample_to_monthly df price_col = Ok monthly ->
  calculate_returns fm monthly price_col = Ok r ->
  StronglySorted ts_lt (map month_end (s_index r))
  /\ map month_end (s_index r) = s_index r.
Proof.
  unfold resample_to_monthly, getitem.
  destruct (columns df !! price_col) as [[p|p]|]; cbn [bind numeric]; try discriminate.
  intros H. injection H as <-.
  unfold calculate_returns, getitem. cbn [columns index].
  rewrite lookup_singleton_eq. cbn [bind numeric]. intros H. injection H as <-.
  rewrite resample_last_index.
  destruct (dropna_index_sublist ts_lt (fun d => month_end d = d)
              (map end_of_month (months (index df)))
              (pct_change fm (resample_last (index df) p).*2)) as [Hs Hf].
  - apply months_sorted.
  - apply Forall_forall. intros d Hd. apply list_elem_of_fmap in Hd.
    destruct Hd as (k & -> & _). reflexivity.
  - rewrite (map_month_end_fixed _ Hf). split; [exact Hs|reflexivity].
Qed.

Lemma monthly_returns_dates_witness :
  exists monthly r,
    resample_to_monthly daily_prices "close" = Ok monthly
    /\ calculate_returns pad monthly "close" = Ok r
    /\ StronglySorted ts_lt (map month_end (s_index r)).
Proof.
  do 2 eexists. split; [reflexivity|]. split; [reflexivity|].
  eapply (proj1 (monthly_returns_dates pad daily_prices "close" _ _ eq_refl eq_refl)).
Defined.

(** ** Statistics by regime *)

Global Instance str_le_Total : Total str_le.
Proof. intros s t. apply String.leb_total. Qed.

Lemma regime_keys_sorted (keys : list string) :
  let ks := merge_sort str_le (remove_dups keys) in
  Sorted str_le ks /\ NoDup ks /\ forall s, s ∈ ks <-> s ∈ keys.
Proof.
  intros ks. assert (Hperm : ks ≡ₚ remove_dups keys) by apply merge_sort_Permutation.
  split; [apply Sorted_merge_sort; apply _|]. split.
  - rewrite Hperm. apply NoDup_remove_dups.
  - intros s. rewrite Hperm. apply elem_of_remove_dups.
Qed.

Lemma analyze_by_regime_text (df : DataFrame) (keys : list string) (n r i : list float) :
  columns df !! "Inflation_Regime" = Some (StrCol keys) ->
  columns df !! "Nominal_Return" = Some (NumCol n) ->
  columns df !! "Real_Return" = Some (NumCol r) ->
  columns df !! "Inflation_Rate" = Some (NumCol i) ->
  analyze_by_regime df
  = Ok (map (fun k => (Text k, summarize keys k n r i))
          (merge_sort str_le (remove_dups keys))).
Proof.
  intros Hk Hn Hr Hi. unfold analyze_by_regime, getitem.
  rewrite Hk, Hn, Hr, Hi. reflexivity.
Qed.

(** X22. On a frame with regime labels and numeric returns and inflation,
    [analyze_by_regime] returns one row for each label that occurs in the
    frame and none for a label that does not; no label comes twice, the
    rows are in alphabetical order of the labels, and when the labels are
    those of [classify_inflation_regime] there are at most three rows. *)
Theorem analyze_by_regime_rows (df : DataFrame) (keys : list string) (n r i : list float) :
  columns df !! "Inflation_Regime" = Some (StrCol keys) ->
  columns df !! "Nominal_Return" = Some (NumCol n) ->
  columns df !! "Real_Return" = Some (NumCol r) ->
  columns df !! "Inflation_Rate" = Some (NumCol i) ->
  exists table ks,
    analyze_by_regime df = Ok table
    /\ table.*1 = map Text ks
    /\ Sorted str_le ks
    /\ NoDup ks
    /\ (forall s, s ∈ ks <-> s ∈ keys)
    /\ (Forall (fun s => s ∈ regime_order) keys -> (length table <= 3)%nat).
Proof.
  intros Hk Hn Hr Hi.
  destruct (regime_keys_sorted keys) as (Hs & Hnd & Hmem).
  exists (map (fun k => (Text k, summarize keys k n r i))
            (merge_sort str_le (remove_dups keys))),
    (merge_sort str_le (remove_dups keys)).
  split; [now apply analyze_by_regime_text|].
  split; [rewrite <- list_fmap_compose; reflexivity|].
  split; [exact Hs|]. split; [exact Hnd|]. split; [exact Hmem|].
  intros Hall. rewrite length_map.
  change 3%nat with (length regime_order). apply submseteq_length.
  apply NoDup_submseteq; [exact Hnd|].
  intros s Hs'. apply Hmem in Hs'. rewrite Forall_forall in Hall. now apply Hall.
Qed.

Lemma analyze_by_regime_rows_witness :
  exists table ks,
    analyze_by_regime regime_frame = Ok table
    /\ table.*1 = map Text ks
    /\ ("High (>3%)" ∈ ks)
    /\ ("Low (<1%)" ∉ ks)
    /\ (length table <= 3)%nat.
Proof.
  destruct (analyze_by_regime_rows regime_frame
              ["Moderate (1-3%)"; "Moderate (1-3%)"; "High (>3%)"]
              [Fin 0.01; NaN; Fin 0.02] [Fin (-0.01); NaN; Fin (-0.02)]
              [Fin 0.02; Fin 0.02; Fin 0.04])
    as (table & ks & Hrun & Hkeys & _ & _ & Hmem & Hlen); try reflexivity.
  exists table, ks. split; [exact Hrun|]. split; [exact Hkeys|]. split; [|split].
  - apply Hmem. do 2 apply list_elem_of_further. apply list_elem_of_here.
  - intros H. apply Hmem in H. repeat (apply elem_of_cons in H; destruct H as [H|H];
      [discriminate H|]). inversion H.
  - apply Hlen. repeat constructor.
Defined.

Lemma sum_indicator (a : string) ks :
  NoDup ks -> a ∈ ks ->
  sum_list_with (fun k => if decide (a = k) then 1%nat else 0%nat) ks = 1%nat.
Proof.
  induction 1 as [|k ks Hk _ IH]; intros Ha; [inversion Ha|].
  cbn [sum_list_with]. destruct (decide (a = k)) as [->|Hne].
  - f_equal. clear IH Ha. induction ks as [|k' ks IH]; [reflexivity|].
    apply not_elem_of_cons in Hk. destruct Hk as [Hne Hk].
    cbn [sum_list_with]. destruct (decide (k = k')); [contradiction|]. now apply IH.
  - apply elem_of_cons in Ha. destruct Ha as [->|Ha]; [contradiction|]. now apply IH.
Qed.

Lemma sum_list_with_plus {A} (f g : A -> nat) l :
  sum_list_with (fun x => (f x + g x)%nat) l = (sum_list_with f l + sum_list_with g l)%nat.
Proof. induction l as [|x l IH]; simpl; [reflexivity|]. rewrite IH. lia. Qed.

Lemma sum_list_with_zero {A} (l : list A) : sum_list_with (fun _ => 0%nat) l = 0%nat.
Proof. induction l; simpl; auto. Qed.

Lemma sum_list_with_ext {A} (f g : A -> nat) l :
  (forall x, f x = g x) -> sum_list_with f l = sum_list_with g l.
Proof. intros H. induction l as [|x l IH]; simpl; [reflexivity|]. now rewrite H, IH. Qed.

Lemma group_counts_total (rows : list (string * float)) ks :
  NoDup ks -> (forall p, p ∈ rows -> p.1 ∈ ks) ->
  sum_list_with
    (fun k => length (valid (filter (fun p : string * float => p.1 = k) rows).*2)) ks
  = length (valid rows.*2).
Proof.
  intros Hnd. induction rows as [|[a x] rows IH]; intros Hcov.
  - cbn. apply sum_list_with_zero.
  - assert (Ha : a ∈ ks) by (apply (Hcov (a, x)), list_elem_of_here).
    assert (Hcov' : forall p, p ∈ rows -> p.1 ∈ ks)
      by (intros p Hp; apply Hcov; now apply list_elem_of_further).
    specialize (IH Hcov').
    rewrite (sum_list_with_ext _
      (fun k => ((if decide (a = k) then length (valid [x]) else 0)
                 + length (valid (filter (fun p : string * float => p.1 = k) rows).*2))%nat)).
    + rewrite sum_list_with_plus, IH. cbn [fmap list_fmap snd].
      unfold valid at 3. destruct (notna x) eqn:E.
      * rewrite filter_cons_True by exact E. fold (valid rows.*2). cbn [length].
        rewrite (sum_list_with_ext _ (fun k => if decide (a = k) then 1%nat else 0%nat)).
        -- now rewrite sum_indicator.
        -- intros k. destruct (decide (a = k)); [|reflexivity].
           unfold valid. now rewrite filter_cons_True, filter_nil by exact E.
      * rewrite filter_cons_False by (rewrite E; discriminate). fold (valid rows.*2).
        rewrite (sum_list_with_ext _ (fun _ => 0%nat)); [now rewrite sum_list_with_zero|].
        intros k. destruct (decide (a = k)); [|reflexivity].
        unfold valid. now rewrite filter_cons_False, filter_nil by (rewrite E; discriminate).
    + intros k. destruct (decide (a = k)) as [<-|Hne].
      * rewrite filter_cons_True by reflexivity. cbn [fmap list_fmap snd].
        unfold valid. destruct (notna x) eqn:E.
        -- rewrite !filter_cons_True by exact E. rewrite filter_nil. reflexivity.
        -- rewrite !filter_cons_False by (rewrite E; discriminate). rewrite filter_nil.
           reflexivity.
      * rewrite filter_cons_False by (cbn [fst]; congruence). reflexivity.
Qed.

(** X23. The counts of [analyze_by_regime] account for every observation
    once: over the rows of the table they add up to the number of nominal
    returns of the frame that are not missing. *)
Theorem analyze_by_regime_counts (df : DataFrame) (keys : list string) (n r i : list float)
    (table : list (label * regime_summary)) :
  columns df !! "Inflation_Regime" = Some (StrCol keys) ->
  columns df !! "Nominal_Return" = Some (NumCol n) ->
  columns df !! "Real_Return" = Some (NumCol r) ->
  columns df !! "Inflation_Rate" = Some (NumCol i) ->
  length keys = length n ->
  analyze_by_regime df = Ok table ->
  sum_list_with (fun row : label * regime_summary => nominal_count row.2) table
  = length (valid n).
Proof.
  intros Hk Hn Hr Hi Hlen Hrun.
  rewrite (analyze_by_regime_text df keys n r i Hk Hn Hr Hi) in Hrun. injection Hrun as <-.
  destruct (regime_keys_sorted keys) as (_ & Hnd & Hmem).
  set (ks := merge_sort str_le (remove_dups keys)) in *.
  assert (E : sum_list_with (fun row : label * regime_summary => nominal_count row.2)
                (map (fun k => (Text k, summarize keys k n r i)) ks)
              = sum_list_with
                  (fun k => length (valid (filter (fun p : string * float => p.1 = k)
                                             (zip keys n)).*2)) ks).
  { clear. induction ks as [|k ks IH]; [reflexivity|]. cbn [map sum_list_with]. now rewrite IH. }
  rewrite E, (group_counts_total (zip keys n) ks Hnd).
  - now rewrite snd_zip by lia.
  - intros [a x] Hp. apply Hmem. cbn [fst]. eapply elem_of_zip_l. exact Hp.
Qed.

Lemma analyze_by_regime_counts_witness :
  exists table,
    analyze_by_regime regime_frame = Ok table
    /\ sum_list_with (fun row : label * regime_summary => nominal_count row.2) table = 2%nat.
Proof.
  eexists. split; [reflexivity|].
  apply (analyze_by_regime_counts regime_frame
           ["Moderate (1-3%)"; "Moderate (1-3%)"; "High (>3%)"]
           [Fin 0.01; NaN; Fin 0.02] [Fin (-0.01); NaN; Fin (-0.02)]
           [Fin 0.02; Fin 0.02; Fin 0.04]); reflexivity.
Defined.

(** [rint] takes a number to an integer within a half of it. *)
Lemma rint_error x : - (1 / 2) <= IZR (rint x) - x <= 1 / 2.
Proof.
  unfold rint. destruct (base_Int_part x) as [H1 H2].
  set (n := Int_part x) in *.
  destruct (Rlt_dec (x - IZR n) (1 / 2)) as [Hlo|Hlo]; [lra|].
  destruct (Rlt_dec (1 / 2) (x - IZR n)) as [Hhi|Hhi].
  - rewrite plus_IZR. lra.
  - destruct (Z.even n); [|rewrite plus_IZR]; lra.
Qed.

Lemma omap_lookup_nil (rows : list nat) : omap (fun j => @nil float !! j) rows = [].
Proof. induction rows as [|j rows IH]; [reflexivity|]. cbn [omap list_omap]. exact IH. Qed.

Lemma filter_omap_shift (keys : list string) (k key : string) (v : list float) (a : float)
    (rows : list nat) :
  omap (fun j => (a :: v) !! j)
    (filter (fun j => (key :: keys) !! j = Some k) (S <$> rows))
  = omap (fun j => v !! j) (filter (fun j => keys !! j = Some k) rows).
Proof.
  induction rows as [|j rows IH]; [reflexivity|]. cbn [fmap list_fmap].
  destruct (decide (keys !! j = Some k)) as [E|E].
  - rewrite !filter_cons_True by exact E. cbn [omap list_omap]. rewrite IH. reflexivity.
  - rewrite !filter_cons_False by exact E. exact IH.
Qed.

(** The group of a label, as [groupby] forms it, holds the cells of the
    column at the rows that carry the label, in the order of the rows. *)
Lemma grouped_cells (keys : list string) (k : string) : forall v : list float,
  grouped keys k v = cells v (rows_with keys k).
Proof.
  unfold grouped, cells, rows_with.
  induction keys as [|key keys IH]; intros v; [reflexivity|].
  cbn [length seq]. rewrite <- fmap_S_seq.
  destruct v as [|a v].
  - cbn [zip zip_with]. rewrite filter_nil. cbn [fmap list_fmap].
    symmetry. apply omap_lookup_nil.
  - cbn [zip zip_with]. destruct (decide (key = k)) as [->|Hne].
    + rewrite filter_cons_True by reflexivity.
      rewrite (filter_cons_True (fun j => (k :: keys) !! j = Some k)) by reflexivity.
      cbn [fmap list_fmap snd omap list_omap lookup list_lookup].
      rewrite filter_omap_shift. f_equal. apply IH.
    + rewrite filter_cons_False by (cbn [fst]; exact Hne).
      rewrite (filter_cons_False (fun j => (key :: keys) !! j = Some k))
        by (cbn; congruence).
      rewrite filter_omap_shift. apply IH.
Qed.

Lemma mean_shows (g : list float) (xs : list R) :
  valid g = map Fin xs -> shows_mean xs (round4 (mean g)).
Proof.
  intros H. unfold mean. rewrite H, fsum_finite, length_map.
  destruct xs as [|x xs].
  - cbn [shows_mean length of_nat INR Rsum foldr]. float_eval. reflexivity.
  - cbn [shows_mean]. unfold of_nat. rewrite fdiv_finite; [reflexivity|].
    pose proof (INR_pos (length (x :: xs)) ltac:(simpl; lia)). lra.
Qed.

Lemma std_shows (g : list float) (xs : list R) :
  valid g = map Fin xs -> shows_std xs (round4 (std g)).
Proof.
  intros H. unfold shows_std.
  assert (E : std g = std (map Fin xs)) by (unfold std; now rewrite H, valid_finite).
  rewrite E. destruct (length xs <=? 1)%nat eqn:L.
  - unfold std. rewrite valid_finite, length_map, L. reflexivity.
  - apply Nat.leb_gt in L. rewrite std_finite by lia. reflexivity.
Qed.

Lemma foldl_fmin2_least (t : list R) : forall x,
  exists m, foldl fmin2 (Fin x) (map Fin t) = Fin m /\ least (x :: t) m.
Proof.
  induction t as [|y t IH]; intros x.
  - exists x. split; [reflexivity|]. split; [apply list_elem_of_here|].
    intros z Hz. apply list_elem_of_singleton in Hz. subst z. lra.
  - cbn [map foldl]. unfold fmin2 at 2. cbn [fltb].
    destruct (Rlt_dec y x) as [Hlt|Hge].
    + destruct (IH y) as (m & E & Hin & Hle). exists m. split; [exact E|]. split.
      * now apply list_elem_of_further.
      * intros z Hz. apply elem_of_cons in Hz. destruct Hz as [->|Hz]; [|now apply Hle].
        pose proof (Hle y (list_elem_of_here _ _)). lra.
    + destruct (IH x) as (m & E & Hin & Hle). exists m. split; [exact E|]. split.
      * apply elem_of_cons in Hin. destruct Hin as [->|Hin]; [apply list_elem_of_here|].
        now do 2 apply list_elem_of_further.
      * intros z Hz. apply elem_of_cons in Hz. destruct Hz as [->|Hz];
          [apply Hle, list_elem_of_here|].
        apply elem_of_cons in Hz. destruct Hz as [->|Hz].
        -- pose proof (Hle x (list_elem_of_here _ _)). lra.
        -- now apply Hle, list_elem_of_further.
Qed.

Lemma foldl_fmax2_greatest (t : list R) : forall x,
  exists m, foldl fmax2 (Fin x) (map Fin t) = Fin m /\ greatest (x :: t) m.
Proof.
  induction t as [|y t IH]; intros x.
  - exists x. split; [reflexivity|]. split; [apply list_elem_of_here|].
    intros z Hz. apply list_elem_of_singleton in Hz. subst z. lra.
  - cbn [map foldl]. unfold fmax2 at 2. cbn [fltb].
    destruct (Rlt_dec x y) as [Hlt|Hge].
    + destruct (IH y) as (m & E & Hin & Hle). exists m. split; [exact E|]. split.
      * now apply list_elem_of_further.
      * intros z Hz. apply elem_of_cons in Hz. destruct Hz as [->|Hz]; [|now apply Hle].
        pose proof (Hle y (list_elem_of_here _ _)). lra.
    + destruct (IH x) as (m & E & Hin & Hle). exists m. split; [exact E|]. split.
      * apply elem_of_cons in Hin. destruct Hin as [->|Hin]; [apply list_elem_of_here|].
        now do 2 apply list_elem_of_further.
      * intros z Hz. apply elem_of_cons in Hz. destruct Hz as [->|Hz];
          [apply Hle, list_elem_of_here|].
        apply elem_of_cons in Hz. destruct Hz as [->|Hz].
        -- pose proof (Hle x (list_elem_of_here _ _)). lra.
        -- now apply Hle, list_elem_of_further.
Qed.

Lemma fmin_shows (g : list float) (xs : list R) :
  valid g = map Fin xs -> shows_min xs (round4 (fmin g)).
Proof.
  intros H. unfold fmin. rewrite H. destruct xs as [|x t]; [reflexivity|].
  cbn [map shows_min]. destruct (foldl_fmin2_least t x) as (m & -> & Hm).
  exists m. split; [exact Hm|reflexivity].
Qed.

Lemma fmax_shows (g : list float) (xs : list R) :
  valid g = map Fin xs -> shows_max xs (round4 (fmax g)).
Proof.
  intros H. unfold fmax. rewrite H. destruct xs as [|x t]; [reflexivity|].
  cbn [map shows_max]. destruct (foldl_fmax2_greatest t x) as (m & -> & Hm).
  exists m. split; [exact Hm|reflexivity].
Qed.

(** X24. What [analyze_by_regime] shows for a label is computed from the
    rows that carry the label and from no other row.  Let the
    observations of a column be its cells at those rows that are not
    missing, all of them numbers.  Then the count is the number of
    observations of the nominal returns; each mean is the arithmetic mean
    of the observations, each standard deviation their sample deviation
    (NaN with fewer than two of them), each minimum the least and each
    maximum the greatest of them, all passed through [round(4)]; and the
    mean, minimum and maximum of a group without observations are NaN. *)
Theorem analyze_by_regime_statistics (df : DataFrame) (keys : list string)
    (n r i : list float) (table : list (label * regime_summary))
    (k : string) (s : regime_summary) (ns rs os : list R) :
  columns df !! "Inflation_Regime" = Some (StrCol keys) ->
  columns df !! "Nominal_Return" = Some (NumCol n) ->
  columns df !! "Real_Return" = Some (NumCol r) ->
  columns df !! "Inflation_Rate" = Some (NumCol i) ->
  analyze_by_regime df = Ok table ->
  (Text k, s) ∈ table ->
  valid (cells n (rows_with keys k)) = map Fin ns ->
  valid (cells r (rows_with keys k)) = map Fin rs ->
  valid (cells i (rows_with keys k)) = map Fin os ->
  nominal_count s = length ns
  /\ shows_mean ns (nominal_mean s)
  /\ shows_std ns (nominal_std s)
  /\ shows_min ns (nominal_min s)
  /\ shows_max ns (nominal_max s)
  /\ shows_mean rs (real_mean s)
  /\ shows_std rs (real_std s)
  /\ shows_min rs (real_min s)
  /\ shows_max rs (real_max s)
  /\ shows_mean os (inflation_mean s)
  /\ shows_min os (inflation_min s)
  /\ shows_max os (inflation_max s).
Proof.
  intros Hk Hn Hr Hi Hrun Hrow Gn Gr Gi.
  rewrite (analyze_by_regime_text df keys n r i Hk Hn Hr Hi) in Hrun. injection Hrun as <-.
  apply list_elem_of_fmap in Hrow. destruct Hrow as (k' & E & _).
  injection E as -> ->.
  rewrite <- grouped_cells in Gn, Gr, Gi.
  cbn [summarize nominal_count nominal_mean nominal_std nominal_min
    nominal_max real_mean real_std real_min real_max inflation_mean inflation_min
    inflation_max].
  split; [now rewrite Gn, length_map|].
  repeat split;
    first [ now apply mean_shows | now apply std_shows
          | now apply fmin_shows | now apply fmax_shows ].
Qed.

Lemma analyze_by_regime_statistics_witness :
  exists table s,
    analyze_by_regime regime_frame = Ok table
    /\ (Text "Moderate (1-3%)", s) ∈ table
    /\ nominal_count s = 1%nat
    /\ nominal_mean s = round4 (Fin (sample_mean [0.01]))
    /\ nominal_std s = NaN
    /\ inflation_mean s = round4 (Fin (sample_mean [0.02; 0.02]))
    /\ exists m, least [0.02; 0.02] m /\ inflation_min s = round4 (Fin m).
Proof.
  assert (Hrow : (Text "Moderate (1-3%)",
                  summarize ["Moderate (1-3%)"; "Moderate (1-3%)"; "High (>3%)"]
                    "Moderate (1-3%)" [Fin 0.01; NaN; Fin 0.02]
                    [Fin (-0.01); NaN; Fin (-0.02)] [Fin 0.02; Fin 0.02; Fin 0.04])
                 ∈ map (fun k => (Text k,
                          summarize ["Moderate (1-3%)"; "Moderate (1-3%)"; "High (>3%)"] k
                            [Fin 0.01; NaN; Fin 0.02] [Fin (-0.01); NaN; Fin (-0.02)]
                            [Fin 0.02; Fin 0.02; Fin 0.04]))
                     (merge_sort str_le
                        (remove_dups ["Moderate (1-3%)"; "Moderate (1-3%)"; "High (>3%)"]))).
  { apply list_elem_of_further, list_elem_of_here. }
  destruct (analyze_by_regime_statistics regime_frame
              ["Moderate (1-3%)"; "Moderate (1-3%)"; "High (>3%)"]
              [Fin 0.01; NaN; Fin 0.02] [Fin (-0.01); NaN; Fin (-0.02)]
              [Fin 0.02; Fin 0.02; Fin 0.04] _ "Moderate (1-3%)" _
              [0.01] [-0.01] [0.02; 0.02]
              eq_refl eq_refl eq_refl eq_refl eq_refl Hrow eq_refl eq_refl eq_refl)
    as (Hc & Hmean & Hstd & _ & _ & _ & _ & _ & _ & Himean & Himin & _).
  do 2 eexists. split; [reflexivity|]. split; [exact Hrow|].
  split; [exact Hc|]. split; [exact Hmean|]. split; [exact Hstd|].
  split; [exact Himean|exact Himin].
Defined.

(** X25. [analyze_by_regime] needs all four columns: it raises KeyError
    when the frame has no Inflation_Regime column, as before
    [add_inflation_regimes] has run, and when it has the regimes but no
    Real_Return column, as before [calculate_real_returns] has run. *)
Theorem analyze_by_regime_KeyError (df : DataFrame) :
  (columns df !! "Inflation_Regime" = None ->
   analyze_by_regime df = Raise (KeyError "Inflation_Regime"))
  /\ (forall regime nominal,
        columns df !! "Inflation_Regime" = Some regime ->
        columns df !! "Nominal_Return" = Some nominal ->
        columns df !! "Real_Return" = None ->
        analyze_by_regime df = Raise (KeyError "Real_Return"))
  /\ (forall table, analyze_by_regime df = Ok table ->
        is_Some (columns df !! "Inflation_Regime")
        /\ is_Some (columns df !! "Nominal_Return")
        /\ is_Some (columns df !! "Real_Return")
        /\ is_Some (columns df !! "Inflation_Rate")).
Proof.
  unfold analyze_by_regime, getitem. split; [|split].
  - intros ->. reflexivity.
  - intros regime nominal -> -> ->. reflexivity.
  - intros table.
    destruct (columns df !! "Inflation_Regime"); [|discriminate].
    destruct (columns df !! "Nominal_Return"); [|discriminate].
    destruct (columns df !! "Real_Return"); [|discriminate].
    destruct (columns df !! "Inflation_Rate"); [|discriminate].
    intros _. repeat split; eauto.
Qed.

Lemma analyze_by_regime_KeyError_witness :
  analyze_by_regime scenario_frame = Raise (KeyError "Inflation_Regime").
Proof. apply (proj1 (analyze_by_regime_KeyError scenario_frame)). reflexivity. Defined.
